(** * All-gather collectives of MPICH: selection, ring schedule, neighbor variant

    A shallow embedding of

      - src/mpi/coll/allgather/allgather.c
          (MPIR_Allgather_intra, MPIR_Allgather_inter, MPIR_Allgather,
           MPI_Allgather),
      - src/mpi/coll/iallgather/iallgather_ring.c
          (MPIR_Iallgather_ring_sched),
      - src/mpi/coll/nhb_allgather/nhb_allgather_nb.c
          (MPIR_Neighbor_allgather_nb),

    together with the properties of these functions.  C [int] values are
    integers of [Z] with the 32-bit wrap-around written out, [MPI_Aint]
    values likewise at 64 bits, pointers are addresses in [Z].  Functions
    that live outside these three files (the data-movement algorithms, the
    device layer, the request layer, the error-code macros) are the
    fields of an interface class, [Runtime]; every call into them is
    recorded in a call log, so that which routine was invoked, and with
    what result, is an observable of the model. *)

From Stdlib Require Import ZArith List Bool Lia String Permutation.
Import ListNotations.
Local Open Scope Z_scope.

(** ** Machine integers *)

Module CInt.

(** Two's-complement wrap-around of a signed [w]-bit integer. *)
Definition wrap (w : Z) (x : Z) : Z :=
  (x + 2 ^ (w - 1)) mod 2 ^ w - 2 ^ (w - 1).

Definition fits (w : Z) (x : Z) : Prop :=
  - 2 ^ (w - 1) <= x < 2 ^ (w - 1).

(** [int] *)
Definition int_bits : Z := 32.
Definition INT_MAX : Z := 2147483647.
Definition int_wrap : Z -> Z := wrap int_bits.
Definition fits_int : Z -> Prop := fits int_bits.

(** [MPI_Aint]: the address-sized signed integer type; 64 bits on the
    LP64 platforms this model describes. *)
Definition aint_bits : Z := 64.
Definition AINT_MAX : Z := 9223372036854775807.
Definition aint_wrap : Z -> Z := wrap aint_bits.
Definition fits_aint : Z -> Prop := fits aint_bits.

(** C's [%] truncates towards zero: it is [Z.rem], not [Z.modulo]. *)
Definition c_mod (a b : Z) : Z := Z.rem a b.

(** What "power of two" means; the code tests it with
    [!(n & (n - 1))]. *)
Definition is_pow2 (n : Z) : Prop := exists k, 0 <= k /\ n = 2 ^ k.

End CInt.

Import CInt.

(** ** Data model (mpi.h, mpiimpl.h) *)

Definition MPI_SUCCESS : Z := 0.

(** [MPIR_Errflag_t]: [MPIR_ERR_NONE = MPI_SUCCESS]; any other value
    marks a failure seen somewhere in the group. *)
Definition MPIR_ERR_NONE : Z := MPI_SUCCESS.

(** The in-place sentinel: the address -1 cast to a pointer. *)
Definition MPI_IN_PLACE : Z := -1.

Definition MPI_Request : Type := Z.

Inductive MPIR_Comm_kind_t : Type :=
| MPIR_COMM_KIND__INTRACOMM
| MPIR_COMM_KIND__INTERCOMM.

(** The fields of [MPIR_Comm] that these routines read. *)
Record MPIR_Comm : Type := {
  comm_kind : MPIR_Comm_kind_t;
  rank : Z;
  local_size : Z
}.

(** A datatype, as far as these routines look at it: what
    [MPIR_Datatype_get_size_macro] and [MPIR_Datatype_get_extent_macro]
    read off the handle. *)
Record MPI_Datatype : Type := {
  MPIR_Datatype_get_size : Z;
  MPIR_Datatype_get_extent : Z
}.

(** The argument list shared by all the all-gather entry points. *)
Record Args : Type := {
  sendbuf : Z;
  sendcount : Z;
  sendtype : MPI_Datatype;
  recvbuf : Z;
  recvcount : Z;
  recvtype : MPI_Datatype;
  comm_ptr : MPIR_Comm
}.

(** ** Configuration (the cvar block of allgather.c) *)

Inductive MPIR_Allgather_alg_intra_t : Type :=
| MPIR_ALLGATHER_ALG_INTRA_AUTO
| MPIR_ALLGATHER_ALG_INTRA_BRUCKS
| MPIR_ALLGATHER_ALG_INTRA_RECURSIVE_DOUBLING
| MPIR_ALLGATHER_ALG_INTRA_RING.

Inductive MPIR_Allgather_alg_inter_t : Type :=
| MPIR_ALLGATHER_ALG_INTER_AUTO
| MPIR_ALLGATHER_ALG_INTER_GENERIC.

Record Cvars : Type := {
  MPIR_CVAR_ALLGATHER_SHORT_MSG_SIZE : Z;
  MPIR_CVAR_ALLGATHER_LONG_MSG_SIZE : Z;
  MPIR_Allgather_alg_intra_choice : MPIR_Allgather_alg_intra_t;
  MPIR_Allgather_alg_inter_choice : MPIR_Allgather_alg_inter_t;
  MPIR_CVAR_ALLGATHER_DEVICE_COLLECTIVE : bool;
  (** declared outside allgather.c, read by [MPI_Allgather] *)
  MPIR_CVAR_DEVICE_COLLECTIVES : bool
}.

(** The defaults of the cvar block; the global device switch is not part
    of that block and stays an argument. *)
Definition default_cvars (device_collectives : bool) : Cvars := {|
  MPIR_CVAR_ALLGATHER_SHORT_MSG_SIZE := 81920;
  MPIR_CVAR_ALLGATHER_LONG_MSG_SIZE := 524288;
  MPIR_Allgather_alg_intra_choice := MPIR_ALLGATHER_ALG_INTRA_AUTO;
  MPIR_Allgather_alg_inter_choice := MPIR_ALLGATHER_ALG_INTER_AUTO;
  MPIR_CVAR_ALLGATHER_DEVICE_COLLECTIVE := true;
  MPIR_CVAR_DEVICE_COLLECTIVES := device_collectives
|}.

(** ** The routines called but not defined in the three files *)

(** The collective routines that allgather.c calls with the full
    argument list and the error flag. *)
Inductive Routine : Type :=
| MPIR_Allgather_recursive_doubling
| MPIR_Allgather_brucks
| MPIR_Allgather_ring
| MPIR_Allgather_generic_inter
| MPID_Allgather.

(** One entry of the call log: the routine, its arguments, and the
    error code it returned. *)
Inductive Event : Type :=
| Call (r : Routine) (a : Args) (ret : Z)
| Call_MPID_Ineighbor_allgather (a : Args) (ret : Z) (req : MPI_Request)
| Call_MPIR_Wait_impl (req : MPI_Request) (ret : Z).

(** The interface to the rest of the library.  [Mem] is everything the
    external routines act on (user buffers, the network, the table of
    requests).  A collective routine gets the arguments, the current
    error flag and the memory, and returns its error code, the new
    error flag and the new memory.  [MPIR_ERR_POP fcname e] is the value
    the macro leaves in [mpi_errno] before jumping to [fn_fail];
    [MPIR_ERR_SET fcname class msg] is the value the macro assigns.
    [MPIR_ERRTEST_COMM] is the code the handle test of the public entry
    point leaves in [mpi_errno], and [MPIR_ERRTEST_ARGS] the code the
    tests after the conversion of the handle leave (both [MPI_SUCCESS]
    when the tests pass, and in a build without HAVE_ERROR_CHECKING); a
    test that fails jumps to [fn_fail].  [FCNAME_MPI_Allgather] is what
    FCNAME expands to in the public entry point (the name depends on the
    profiling macros).  [MPIR_Err_create_code] and
    [MPIR_Err_return_comm] are the two calls of its [fn_fail] block; the
    communicator pointer handed to the second may be NULL ([None]). *)
Class Runtime : Type := {
  Mem : Type;
  coll_impl : Routine -> Args -> Z -> Mem -> Z * Z * Mem;
  MPID_Ineighbor_allgather : Args -> Mem -> Z * MPI_Request * Mem;
  MPIR_Wait_impl : MPI_Request -> Mem -> Z * Mem;
  MPIR_ERR_POP : string -> Z -> Z;
  MPIR_ERR_SET : string -> Z -> string -> Z;
  MPIR_ERRTEST_COMM : Args -> Z;
  MPIR_ERRTEST_ARGS : Args -> Z;
  FCNAME_MPI_Allgather : string;
  MPIR_Err_create_code : Z -> string -> string -> Z;
  MPIR_Err_return_comm : option MPIR_Comm -> string -> Z -> Z
}.

(** The state a call runs in: the external memory, the cell that the
    [errflag] pointer designates, and the call log. *)
Record World {R : Runtime} : Type := {
  mem : Mem;
  errflag : Z;
  calls : list Event
}.

(** [if (e)] on a C integer. *)
Definition c_true (e : Z) : bool := negb (e =? 0).

(** The code the argument validation of the public entry point leaves
    in [mpi_errno]: that of the handle test when it fails, else that of
    the tests that follow the conversion of the handle. *)
Definition MPIR_ERRTEST {Runtime : Runtime} (a : Args) : Z :=
  if c_true (MPIR_ERRTEST_COMM a) then MPIR_ERRTEST_COMM a
  else MPIR_ERRTEST_ARGS a.

Section Calls.
Context {R : Runtime}.

(** Calling a collective routine: run it, store the flag it leaves
    behind, log the call. *)
Definition call (r : Routine) (a : Args) (w : World) : Z * World :=
  let '(mpi_errno, flag, m) := coll_impl r a (errflag w) (mem w) in
  (mpi_errno,
   {| mem := m; errflag := flag;
      calls := calls w ++ [Call r a mpi_errno] |}).

Definition call_MPID_Ineighbor_allgather (a : Args) (w : World)
  : Z * MPI_Request * World :=
  let '(mpi_errno, req, m) := MPID_Ineighbor_allgather a (mem w) in
  (mpi_errno, req,
   {| mem := m; errflag := errflag w;
      calls := calls w ++ [Call_MPID_Ineighbor_allgather a mpi_errno req] |}).

Definition call_MPIR_Wait_impl (req : MPI_Request) (w : World)
  : Z * World :=
  let '(mpi_errno, m) := MPIR_Wait_impl req (mem w) in
  (mpi_errno,
   {| mem := m; errflag := errflag w;
      calls := calls w ++ [Call_MPIR_Wait_impl req mpi_errno] |}).

End Calls.

(** ** allgather.c *)

Section Allgather.
Context {R : Runtime}.
Variable cvars : Cvars.

(** The guard of line 168: a call that moves nothing. *)
Definition zero_size_call (a : Args) : bool :=
  ((sendcount a =? 0) && negb (sendbuf a =? MPI_IN_PLACE))
  || (recvcount a =? 0).

(** [tot_bytes = (MPI_Aint) recvcount * comm_size * type_size]: the
    size of the datatype is first stored in [int type_size], and both
    products are taken in [MPI_Aint]. *)
Definition tot_bytes (a : Args) : Z :=
  let type_size := int_wrap (MPIR_Datatype_get_size (recvtype a)) in
  aint_wrap
    (aint_wrap (recvcount a * local_size (comm_ptr a)) * type_size).

(** [!(comm_size & (comm_size - 1))] *)
Definition comm_size_is_pof2 (comm_size : Z) : bool :=
  negb (c_true (Z.land comm_size (int_wrap (comm_size - 1)))).

Definition MPIR_Allgather_intra (a : Args) (w : World) : Z * World :=
  let FCNAME := "MPIR_Allgather_intra"%string in
  let mpi_errno_ret := MPI_SUCCESS in
  if zero_size_call a then (MPI_SUCCESS, w)
  else
    let comm_size := local_size (comm_ptr a) in
    let '(mpi_errno, w) :=
      if (tot_bytes a <? MPIR_CVAR_ALLGATHER_LONG_MSG_SIZE cvars)
         && comm_size_is_pof2 comm_size
      then call MPIR_Allgather_recursive_doubling a w
      else if tot_bytes a <? MPIR_CVAR_ALLGATHER_SHORT_MSG_SIZE cvars
      then call MPIR_Allgather_brucks a w
      else call MPIR_Allgather_ring a w in
    (* if (mpi_errno) MPIR_ERR_POP(mpi_errno);  fn_fail: goto fn_exit *)
    let mpi_errno :=
      if c_true mpi_errno then MPIR_ERR_POP FCNAME mpi_errno
      else mpi_errno in
    (* fn_exit: *)
    let mpi_errno :=
      if c_true mpi_errno_ret then mpi_errno_ret
      else if negb (errflag w =? MPIR_ERR_NONE)
      then MPIR_ERR_SET FCNAME (errflag w) "**coll_fail"
      else mpi_errno in
    (mpi_errno, w).

Definition MPIR_Allgather_inter (a : Args) (w : World) : Z * World :=
  call MPIR_Allgather_generic_inter a w.

Definition MPIR_Allgather (a : Args) (w : World) : Z * World :=
  let FCNAME := "MPIR_Allgather"%string in
  let '(mpi_errno, w) :=
    match comm_kind (comm_ptr a) with
    | MPIR_COMM_KIND__INTRACOMM =>
        match MPIR_Allgather_alg_intra_choice cvars with
        | MPIR_ALLGATHER_ALG_INTRA_BRUCKS =>
            call MPIR_Allgather_brucks a w
        | MPIR_ALLGATHER_ALG_INTRA_RECURSIVE_DOUBLING =>
            call MPIR_Allgather_recursive_doubling a w
        | MPIR_ALLGATHER_ALG_INTRA_RING =>
            call MPIR_Allgather_ring a w
        | MPIR_ALLGATHER_ALG_INTRA_AUTO =>
            MPIR_Allgather_intra a w
        end
    | MPIR_COMM_KIND__INTERCOMM =>
        match MPIR_Allgather_alg_inter_choice cvars with
        | MPIR_ALLGATHER_ALG_INTER_GENERIC =>
            call MPIR_Allgather_generic_inter a w
        | MPIR_ALLGATHER_ALG_INTER_AUTO =>
            MPIR_Allgather_inter a w
        end
    end in
  if c_true mpi_errno then (MPIR_ERR_POP FCNAME mpi_errno, w)
  else (mpi_errno, w).

(** The [fn_fail] block of [MPI_Allgather]: the code is rebuilt by
    [MPIR_Err_create_code] and passed to the error handler of the
    communicator [comm_ptr] points to, which is NULL as long as the
    handle has not been converted. *)
Definition MPI_Allgather_fn_fail_at (comm_ptr : option MPIR_Comm)
    (mpi_errno : Z) : Z :=
  let FCNAME := FCNAME_MPI_Allgather in
  let mpi_errno := MPIR_Err_create_code mpi_errno FCNAME "**mpi_allgather" in
  MPIR_Err_return_comm comm_ptr FCNAME mpi_errno.

(** [fn_fail] once the handle is converted. *)
Definition MPI_Allgather_fn_fail (a : Args) (mpi_errno : Z) : Z :=
  MPI_Allgather_fn_fail_at (Some (comm_ptr a)) mpi_errno.

(** The public entry point.  [errflag] is a local variable of it,
    initialised to [MPIR_ERR_NONE] and passed down by address. *)
Definition MPI_Allgather (a : Args) (w : World) : Z * World :=
  let w := {| mem := mem w; errflag := MPIR_ERR_NONE; calls := calls w |} in
  (* MPIR_Comm *comm_ptr = NULL;  MPIR_ERRTEST_COMM(comm, mpi_errno); *)
  let mpi_errno := MPIR_ERRTEST_COMM a in
  if c_true mpi_errno then (MPI_Allgather_fn_fail_at None mpi_errno, w)
  else
  (* Convert MPI object handles to object pointers;
     validate parameters and objects (post conversion) *)
  let mpi_errno := MPIR_ERRTEST_ARGS a in
  if c_true mpi_errno then (MPI_Allgather_fn_fail a mpi_errno, w)
  else
    let '(mpi_errno, w) :=
      if MPIR_CVAR_ALLGATHER_DEVICE_COLLECTIVE cvars
         && MPIR_CVAR_DEVICE_COLLECTIVES cvars
      then call MPID_Allgather a w
      else MPIR_Allgather a w in
    if c_true mpi_errno then (MPI_Allgather_fn_fail a mpi_errno, w)
    else (mpi_errno, w).

End Allgather.

(** ** Schedules *)

(** One entry of a schedule. *)
Inductive Step : Type :=
| Sched_copy (inbuf incount : Z) (intype : MPI_Datatype)
             (outbuf outcount : Z) (outtype : MPI_Datatype)
| Sched_send (buf count : Z) (datatype : MPI_Datatype) (dest : Z)
             (comm : MPIR_Comm)
| Sched_recv (buf count : Z) (datatype : MPI_Datatype) (src : Z)
             (comm : MPIR_Comm)
| Sched_barrier.

Definition MPIR_Sched_t : Type := list Step.

(** Modelled from the spec: the step emitters [MPIR_Sched_copy],
    [MPIR_Sched_send], [MPIR_Sched_recv] and [MPIR_Sched_barrier] (the
    schedule implementation is not among the three files).  In the
    non-blocking path "the emitter appends steps (copy/send/receive/
    barrier) to an ordered schedule object and returns without
    performing I/O". *)
Definition MPIR_Sched_copy (inbuf incount : Z) (intype : MPI_Datatype)
    (outbuf outcount : Z) (outtype : MPI_Datatype) (s : MPIR_Sched_t)
  : Z * MPIR_Sched_t :=
  (MPI_SUCCESS, s ++ [Sched_copy inbuf incount intype outbuf outcount outtype]).

Definition MPIR_Sched_send (buf count : Z) (datatype : MPI_Datatype)
    (dest : Z) (comm : MPIR_Comm) (s : MPIR_Sched_t) : Z * MPIR_Sched_t :=
  (MPI_SUCCESS, s ++ [Sched_send buf count datatype dest comm]).

Definition MPIR_Sched_recv (buf count : Z) (datatype : MPI_Datatype)
    (src : Z) (comm : MPIR_Comm) (s : MPIR_Sched_t) : Z * MPIR_Sched_t :=
  (MPI_SUCCESS, s ++ [Sched_recv buf count datatype src comm]).

Definition MPIR_Sched_barrier (s : MPIR_Sched_t) : Z * MPIR_Sched_t :=
  (MPI_SUCCESS, s ++ [Sched_barrier]).

(** The phases of a schedule: the runs of steps between barriers, in
    order.  Steps of one phase may run concurrently; a phase starts only
    when the phases before it are complete.  The last element is the
    phase still open at the end of the schedule (empty when the schedule
    ends with a barrier). *)
Fixpoint phases (s : list Step) : list (list Step) :=
  match s with
  | [] => [[]]
  | Sched_barrier :: s' => [] :: phases s'
  | x :: s' =>
      match phases s' with
      | p :: ps => (x :: p) :: ps
      | [] => [[x]]
      end
  end.

(** ** iallgather_ring.c *)

Section IallgatherRing.
Context {R : Runtime}.

Definition FCNAME_ring : string := "MPIR_Iallgather_ring_sched".

(** [mpi_errno = op; if (mpi_errno) MPIR_ERR_POP(mpi_errno);] followed
    by the rest of the function. *)
Definition and_then (op k : MPIR_Sched_t -> Z * MPIR_Sched_t)
  : MPIR_Sched_t -> Z * MPIR_Sched_t :=
  fun s =>
    let '(mpi_errno, s) := op s in
    if c_true mpi_errno then (MPIR_ERR_POP FCNAME_ring mpi_errno, s)
    else k s.

(** The macro [MPIR_SCHED_BARRIER(s)] is the barrier emitter with the
    same error check. *)
Definition MPIR_SCHED_BARRIER := and_then MPIR_Sched_barrier.

(** [recvbuf + j*recvcount*recvtype_extent], in bytes: the product
    [j*recvcount] is taken in [int], the product with the extent in
    [MPI_Aint]. *)
Definition block_addr (a : Args) (j : Z) : Z :=
  recvbuf a
  + aint_wrap (int_wrap (j * recvcount a)
               * MPIR_Datatype_get_extent (recvtype a)).

(** [(comm_size + jnext - 1) % comm_size] *)
Definition ring_prev (comm_size jnext : Z) : Z :=
  c_mod (int_wrap (int_wrap (comm_size + jnext) - 1)) comm_size.

(** The [for (i = 1; i < comm_size; i++)] loop, by the number of
    iterations left; [j] and [jnext] are the loop-carried variables. *)
Fixpoint ring_loop (iters : nat) (a : Args) (left right j jnext : Z)
  : MPIR_Sched_t -> Z * MPIR_Sched_t :=
  match iters with
  | O => fun s => (MPI_SUCCESS, s)
  | S iters' =>
      and_then (MPIR_Sched_send (block_addr a j) (recvcount a) (recvtype a)
                                right (comm_ptr a))
        (* concurrent, no barrier here *)
        (and_then (MPIR_Sched_recv (block_addr a jnext) (recvcount a)
                                   (recvtype a) left (comm_ptr a))
           (MPIR_SCHED_BARRIER
              (ring_loop iters' a left right
                 jnext (ring_prev (local_size (comm_ptr a)) jnext))))
  end.

(** The builder.  [MPIR_Ensure_Aint_fits_in_pointer] is an assertion
    on the largest offset and emits nothing. *)
Definition MPIR_Iallgather_ring_sched (a : Args) (s : MPIR_Sched_t)
  : Z * MPIR_Sched_t :=
  let comm_size := local_size (comm_ptr a) in
  let rank := rank (comm_ptr a) in
  let communicate :=
    let left := c_mod (int_wrap (int_wrap (comm_size + rank) - 1)) comm_size in
    let right := c_mod (int_wrap (rank + 1)) comm_size in
    let j := rank in
    let jnext := left in
    ring_loop (Z.to_nat (comm_size - 1)) a left right j jnext in
  (* First, load the "local" version in the recvbuf. *)
  if negb (sendbuf a =? MPI_IN_PLACE) then
    and_then (MPIR_Sched_copy (sendbuf a) (sendcount a) (sendtype a)
                              (block_addr a rank) (recvcount a) (recvtype a))
      (MPIR_SCHED_BARRIER communicate) s
  else communicate s.

End IallgatherRing.

(** ** nhb_allgather_nb.c *)

Section NeighborAllgather.
Context {R : Runtime}.

Definition MPIR_Neighbor_allgather_nb (a : Args) (w : World) : Z * World :=
  let FCNAME := "MPIR_Neighbor_allgather_nb"%string in
  (* just call the nonblocking version and wait on it *)
  let '(mpi_errno, req, w) := call_MPID_Ineighbor_allgather a w in
  if c_true mpi_errno then (MPIR_ERR_POP FCNAME mpi_errno, w)
  else
    let '(mpi_errno, w) := call_MPIR_Wait_impl req w in
    if c_true mpi_errno then (MPIR_ERR_POP FCNAME mpi_errno, w)
    else (mpi_errno, w).

(** The composition the specification names: start the non-blocking
    neighbor all-gather, then wait on the request it returned until
    completion.  As everywhere in the library, the second step is
    taken only when the first one succeeded. *)
Definition start_then_wait (a : Args) (w : World) : Z * World :=
  let '(e, req, w1) := call_MPID_Ineighbor_allgather a w in
  if e =? MPI_SUCCESS then call_MPIR_Wait_impl req w1 else (e, w1).

(** How an error code leaves a library routine: through
    [MPIR_ERR_POP]. *)
Definition propagated (fcname : string) (e : Z) : Z :=
  if e =? MPI_SUCCESS then MPI_SUCCESS else MPIR_ERR_POP fcname e.

End NeighborAllgather.

(** ** Vocabulary of the properties *)

(** Between [w] and [w'] exactly one collective routine was called: [r],
    on the arguments [a]. *)
Definition invokes {R : Runtime} (r : Routine) (a : Args) (w w' : World) : Prop :=
  exists ret, calls w' = calls w ++ [Call r a ret].

(** The selection policy in the words of the specification: recursive
    doubling below the long-message threshold on a power-of-two group,
    else Bruck below the short-message threshold, else ring. *)
Definition selection_policy (short_msg long_msg n : Z) (size_pow2 : bool)
  : Routine :=
  if (n <? long_msg) && size_pow2 then MPIR_Allgather_recursive_doubling
  else if n <? short_msg then MPIR_Allgather_brucks
  else MPIR_Allgather_ring.

(** Modelled from the spec: what the algorithm routines
    [MPIR_Allgather_recursive_doubling], [MPIR_Allgather_brucks],
    [MPIR_Allgather_ring] and [MPIR_Allgather_generic_inter] (none of
    them among the sources) do on a call of size zero.  "Zero-size calls
    (send count zero and not in-place, or receive count zero) return
    immediately with no data movement and no error": the routine
    returns [MPI_SUCCESS] and leaves the memory and the error flag as
    they were. *)
Definition zero_size_contract (R : Runtime) : Prop :=
  forall r a flag m,
    r <> MPID_Allgather ->
    zero_size_call a = true ->
    coll_impl r a flag m = (MPI_SUCCESS, flag, m).

(** The routine that [MPIR_Allgather] calls directly, when the
    configuration names one. *)
Definition forced_routine (cvars : Cvars) (kind : MPIR_Comm_kind_t)
  : option Routine :=
  match kind with
  | MPIR_COMM_KIND__INTRACOMM =>
      match MPIR_Allgather_alg_intra_choice cvars with
      | MPIR_ALLGATHER_ALG_INTRA_AUTO => None
      | MPIR_ALLGATHER_ALG_INTRA_BRUCKS => Some MPIR_Allgather_brucks
      | MPIR_ALLGATHER_ALG_INTRA_RECURSIVE_DOUBLING =>
          Some MPIR_Allgather_recursive_doubling
      | MPIR_ALLGATHER_ALG_INTRA_RING => Some MPIR_Allgather_ring
      end
  | MPIR_COMM_KIND__INTERCOMM => Some MPIR_Allgather_generic_inter
  end.

(** The ring walk in closed form.  At step [i] (counted from 1) the
    block sent is [(rank - i + 1) mod size] and the block received is
    [(rank - i) mod size]. *)
Definition ring_send_block (size rank i : Z) : Z := (rank - i + 1) mod size.
Definition ring_recv_block (size rank i : Z) : Z := (rank - i) mod size.
Definition ring_right (size rank : Z) : Z := (rank + 1) mod size.
Definition ring_left (size rank : Z) : Z := (rank - 1 + size) mod size.

(** The largest group size for which [comm_size + jnext - 1] stays
    within [int] for every block number [jnext]: 2^30. *)
Definition max_ring_size : Z := 1073741824.

(** The step numbers [first, first + 1, ...], [n] of them. *)
Definition step_numbers (first n : nat) : list Z := map Z.of_nat (seq first n).

Section RingClosedForm.
Context {R : Runtime}.

Definition ring_send (a : Args) (i : Z) : Step :=
  let size := local_size (comm_ptr a) in
  let rank := rank (comm_ptr a) in
  Sched_send (block_addr a (ring_send_block size rank i))
             (recvcount a) (recvtype a) (ring_right size rank) (comm_ptr a).

Definition ring_recv (a : Args) (i : Z) : Step :=
  let size := local_size (comm_ptr a) in
  let rank := rank (comm_ptr a) in
  Sched_recv (block_addr a (ring_recv_block size rank i))
             (recvcount a) (recvtype a) (ring_left size rank) (comm_ptr a).

Definition ring_step (a : Args) (i : Z) : list Step :=
  [ring_send a i; ring_recv a i; Sched_barrier].

Definition ring_local_copy (a : Args) : Step :=
  Sched_copy (sendbuf a) (sendcount a) (sendtype a)
             (block_addr a (rank (comm_ptr a))) (recvcount a) (recvtype a).

Definition ring_prologue (a : Args) : list Step :=
  if sendbuf a =? MPI_IN_PLACE then []
  else [ring_local_copy a; Sched_barrier].

Definition ring_steps (a : Args) : list Z :=
  step_numbers 1 (Z.to_nat (local_size (comm_ptr a) - 1)).

Definition ring_schedule (a : Args) : list Step :=
  ring_prologue a ++ flat_map (ring_step a) (ring_steps a).

End RingClosedForm.

(** A step writes at address [addr] when it is a copy to it or a receive
    into it. *)
Definition writes_to (addr : Z) (st : Step) : bool :=
  match st with
  | Sched_copy _ _ _ outbuf _ _ => outbuf =? addr
  | Sched_recv buf _ _ _ _ => buf =? addr
  | Sched_send _ _ _ _ _ => false
  | Sched_barrier => false
  end.

(** ** Concrete runtimes and calls, for evaluation *)

Module Sample.

(** A runtime whose collective routines return [ret] and, when
    [flag] is not [MPIR_ERR_NONE], raise the error flag to [flag]; the
    memory counts the routines that ran.  The non-blocking start
    returns [start_ret] and request 7, the wait returns [wait_ret].
    The error macros are those of a build without error-message
    stacks: a code is passed on unchanged and a new code is its
    class. *)
Definition runtime (ret flag start_ret wait_ret : Z) : Runtime := {|
  Mem := nat;
  coll_impl := fun _ _ f m =>
    (ret, if flag =? MPIR_ERR_NONE then f else flag, S m);
  MPID_Ineighbor_allgather := fun _ m => (start_ret, 7, S m);
  MPIR_Wait_impl := fun _ m => (wait_ret, S m);
  MPIR_ERR_POP := fun _ e => e;
  MPIR_ERR_SET := fun _ class _ => class;
  MPIR_ERRTEST_COMM := fun _ => MPI_SUCCESS;
  MPIR_ERRTEST_ARGS := fun _ => MPI_SUCCESS;
  FCNAME_MPI_Allgather := "MPI_Allgather";
  MPIR_Err_create_code := fun e _ _ => e;
  MPIR_Err_return_comm := fun _ _ e => e
|}.

(** Every external routine succeeds. *)
Definition quiet : Runtime := runtime 0 0 0 0.

Definition world0 (R : Runtime) (m : @Mem R) : @World R :=
  {| mem := m; errflag := MPIR_ERR_NONE; calls := [] |}.

Definition MPI_INT : MPI_Datatype :=
  {| MPIR_Datatype_get_size := 4; MPIR_Datatype_get_extent := 4 |}.

Definition comm (kind : MPIR_Comm_kind_t) (rank size : Z) : MPIR_Comm :=
  {| comm_kind := kind; rank := rank; local_size := size |}.

(** A call on [count] ints per process, receive buffer at 4096, send
    buffer at [sbuf]. *)
Definition args (sbuf count : Z) (c : MPIR_Comm) : Args :=
  {| sendbuf := sbuf; sendcount := count; sendtype := MPI_INT;
     recvbuf := 4096; recvcount := count; recvtype := MPI_INT;
     comm_ptr := c |}.

Definition intra (rank size : Z) : MPIR_Comm :=
  comm MPIR_COMM_KIND__INTRACOMM rank size.

Definition forced_ring : Cvars := {|
  MPIR_CVAR_ALLGATHER_SHORT_MSG_SIZE := 81920;
  MPIR_CVAR_ALLGATHER_LONG_MSG_SIZE := 524288;
  MPIR_Allgather_alg_intra_choice := MPIR_ALLGATHER_ALG_INTRA_RING;
  MPIR_Allgather_alg_inter_choice := MPIR_ALLGATHER_ALG_INTER_AUTO;
  MPIR_CVAR_ALLGATHER_DEVICE_COLLECTIVE := true;
  MPIR_CVAR_DEVICE_COLLECTIVES := true
|}.

End Sample.

(** ** win_complete.c *)

Module Rma.

(** A window handle, and a window object by identity; a pointer to a
    window object may be NULL ([None]). *)
Definition MPI_Win : Type := Z.
Definition MPIR_Win : Type := Z.

(** The calls [MPI_Win_complete] makes that have an effect outside it:
    the device routine, and the error handler of the window. *)
Inductive WinEvent : Type :=
| Call_MPID_Win_complete (win_ptr : option MPIR_Win) (ret : Z)
| Call_MPIR_Err_return_win (win_ptr : option MPIR_Win) (errcode : Z) (ret : Z).

(** The routines and macros [MPI_Win_complete] uses.  [MPIR_ERRTEST_WIN]
    is the code the handle test leaves in [mpi_errno] (the macro jumps
    to [fn_fail] when it is an error), [MPIR_Win_valid_ptr] the code the
    pointer test leaves; both are [MPI_SUCCESS] in a build without
    HAVE_ERROR_CHECKING.  [func] is the value of [__func__]. *)
Class WinRuntime : Type := {
  WinMem : Type;
  func : string;
  MPIR_ERRTEST_WIN : MPI_Win -> Z;
  MPIR_Win_get_ptr : MPI_Win -> option MPIR_Win;
  MPIR_Win_valid_ptr : option MPIR_Win -> Z;
  MPID_Win_complete : option MPIR_Win -> WinMem -> Z * WinMem;
  MPIR_Err_create_code : Z -> string -> string -> Z;
  MPIR_Err_return_win : option MPIR_Win -> string -> Z -> Z
}.

Record WinWorld {W : WinRuntime} : Type := {
  wmem : WinMem;
  wcalls : list WinEvent
}.

Section WinComplete.
Context {W : WinRuntime}.

Definition call_MPID_Win_complete (win_ptr : option MPIR_Win) (w : WinWorld)
  : Z * WinWorld :=
  let '(mpi_errno, m) := MPID_Win_complete win_ptr (wmem w) in
  (mpi_errno,
   {| wmem := m;
      wcalls := wcalls w ++ [Call_MPID_Win_complete win_ptr mpi_errno] |}).

(** The [fn_fail] block: the code is rebuilt and handed to the error
    handler of the window, whose result is returned. *)
Definition MPI_Win_complete_fn_fail (win_ptr : option MPIR_Win)
    (mpi_errno : Z) (w : WinWorld) : Z * WinWorld :=
  let mpi_errno := MPIR_Err_create_code mpi_errno func "**mpi_win_complete" in
  let ret := MPIR_Err_return_win win_ptr func mpi_errno in
  (ret,
   {| wmem := wmem w;
      wcalls := wcalls w ++ [Call_MPIR_Err_return_win win_ptr mpi_errno ret] |}).

Definition MPI_Win_complete (win : MPI_Win) (w : WinWorld) : Z * WinWorld :=
  (* MPIR_Win *win_ptr = NULL; *)
  let win_ptr := @None MPIR_Win in
  let mpi_errno := MPIR_ERRTEST_WIN win in
  if c_true mpi_errno then MPI_Win_complete_fn_fail win_ptr mpi_errno w
  else
    (* Convert MPI object handles to object pointers *)
    let win_ptr := MPIR_Win_get_ptr win in
    (* Validate win_ptr *)
    let mpi_errno := MPIR_Win_valid_ptr win_ptr in
    if c_true mpi_errno then MPI_Win_complete_fn_fail win_ptr mpi_errno w
    else
      let '(mpi_errno, w) := call_MPID_Win_complete win_ptr w in
      if negb (mpi_errno =? MPI_SUCCESS)
      then MPI_Win_complete_fn_fail win_ptr mpi_errno w
      else (mpi_errno, w).

End WinComplete.

(** A runtime for evaluation: handle 0 is the null window and fails the
    handle test with code 45, handle [h > 0] converts to the object [h],
    the device routine returns [ret], and the error handler returns the
    code it is given. *)
Definition sample (ret : Z) : WinRuntime := {|
  WinMem := nat;
  func := "MPI_Win_complete";
  MPIR_ERRTEST_WIN := fun win => if win =? 0 then 45 else MPI_SUCCESS;
  MPIR_Win_get_ptr := fun win => Some win;
  MPIR_Win_valid_ptr := fun _ => MPI_SUCCESS;
  MPID_Win_complete := fun _ m => (ret, S m);
  MPIR_Err_create_code := fun e _ _ => e;
  MPIR_Err_return_win := fun _ _ e => e
|}.

End Rma.

(** ** More vocabulary: counting steps, the ring as a chain *)

Definition is_send (st : Step) : bool :=
  match st with Sched_send _ _ _ _ _ => true | _ => false end.

Definition is_recv (st : Step) : bool :=
  match st with Sched_recv _ _ _ _ _ => true | _ => false end.

Definition is_barrier (st : Step) : bool :=
  match st with Sched_barrier => true | _ => false end.

Definition count_steps (p : Step -> bool) (s : list Step) : Z :=
  Z.of_nat (List.length (filter p s)).

(** The address in the receive array that a step reads or writes: the
    buffer of a send or a receive, the target of a copy. *)
Definition step_addr (st : Step) : option Z :=
  match st with
  | Sched_copy _ _ _ outbuf _ _ => Some outbuf
  | Sched_send buf _ _ _ _ => Some buf
  | Sched_recv buf _ _ _ _ => Some buf
  | Sched_barrier => None
  end.

(** A pipeline over a list of buffers: each round sends the buffer at
    hand to [right] and receives the next buffer of the list from
    [left]; the buffer received in one round is the one sent in the
    next. *)
Fixpoint chain_steps (a : Args) (left right : Z) (bufs : list Z) : list Step :=
  match bufs with
  | b0 :: rest =>
      match rest with
      | b1 :: _ =>
          Sched_send b0 (recvcount a) (recvtype a) right (comm_ptr a)
          :: Sched_recv b1 (recvcount a) (recvtype a) left (comm_ptr a)
          :: Sched_barrier
          :: chain_steps a left right rest
      | [] => []
      end
  | [] => []
  end.

(** The blocks in the order the ring walk visits them: [rank],
    [rank - 1], ... modulo [size]. *)
Definition ring_walk (size rank : Z) : list Z :=
  map (fun i => (rank - i) mod size) (step_numbers 0 (Z.to_nat size)).

(** ** Running the schedules of a whole group *)

(** Modelled from the spec: the execution of schedules (the progress
    engine that drains a schedule is not among the files).  "All steps
    before a barrier must complete before any step after it begins;
    steps between two barriers may execute concurrently": the processes
    of a group run their schedules phase by phase, every read of a
    phase seeing the memories as they were when the phase began, and a
    receive from [src] gets what [src] sends to the receiver in the same
    phase.  Memory is kept block by block: a cell per start address
    that holds the rank whose contribution is stored there, if any. *)
Definition Memory : Type := Z -> option Z.

Definition store (m : Memory) (addr : Z) (v : option Z) : Memory :=
  fun x => if x =? addr then v else m x.

(** The buffer of the first send to [dest] among [steps]. *)
Fixpoint send_to (dest : Z) (steps : list Step) : option Z :=
  match steps with
  | [] => None
  | Sched_send buf _ _ d _ :: rest =>
      if d =? dest then Some buf else send_to dest rest
  | _ :: rest => send_to dest rest
  end.

(** The steps of one phase on process [r]; [before] are the memories of
    all processes at the start of the phase and [phase] the steps every
    process runs in it. *)
Fixpoint run_steps (before : Z -> Memory) (phase : Z -> list Step) (r : Z)
    (steps : list Step) (m : Memory) : Memory :=
  match steps with
  | [] => m
  | Sched_copy inbuf _ _ outbuf _ _ :: rest =>
      run_steps before phase r rest (store m outbuf (before r inbuf))
  | Sched_recv buf _ _ src _ :: rest =>
      let received :=
        match send_to r (phase src) with
        | Some sent => before src sent
        | None => None
        end in
      run_steps before phase r rest (store m buf received)
  | _ :: rest => run_steps before phase r rest m
  end.

Definition run_phase (phase : Z -> list Step) (g : Z -> Memory)
  : Z -> Memory :=
  fun r => run_steps g phase r (phase r) (g r).

(** [n] phases in lock step; a process whose schedule is exhausted does
    nothing. *)
Fixpoint run_phases (n : nat) (sched : Z -> list (list Step))
    (g : Z -> Memory) : Z -> Memory :=
  match n with
  | O => g
  | S n' =>
      run_phases n' (fun r => tl (sched r))
        (run_phase (fun r => hd [] (sched r)) g)
  end.

(** The argument list of member [r] of a group of [size] processes: it
    names the group size and the rank, and its receive buffer is an
    array of [size] blocks of positive length whose offsets are
    representable. *)
Definition group_member (size : Z) (a : Args) (r : Z) : Prop :=
  local_size (comm_ptr a) = size
  /\ rank (comm_ptr a) = r
  /\ 0 < recvcount a
  /\ 0 < MPIR_Datatype_get_extent (recvtype a)
  /\ size * recvcount a <= INT_MAX
  /\ size * recvcount a * MPIR_Datatype_get_extent (recvtype a) <= AINT_MAX.

(** Where the contribution of member [r] is when the call starts: in its
    own block of the receive buffer for an in-place call, in the send
    buffer otherwise. *)
Definition contribution_addr (a : Args) : Z :=
  if sendbuf a =? MPI_IN_PLACE then block_addr a (rank (comm_ptr a))
  else sendbuf a.

(** After round [k] every process holds, in the right blocks, the
    contributions of the [k + 1] blocks its walk has reached. *)
Definition holds_walk (size : Z) (args_of : Z -> Args) (k : Z)
    (g : Z -> Memory) : Prop :=
  forall r i, 0 <= r < size -> 0 <= i <= k ->
    g r (block_addr (args_of r) ((r - i) mod size)) = Some ((r - i) mod size).

Module SampleMore.

Definition inter (rank size : Z) : MPIR_Comm :=
  Sample.comm MPIR_COMM_KIND__INTERCOMM rank size.

Definition forced (intra : MPIR_Allgather_alg_intra_t)
    (inter : MPIR_Allgather_alg_inter_t) : Cvars := {|
  MPIR_CVAR_ALLGATHER_SHORT_MSG_SIZE := 81920;
  MPIR_CVAR_ALLGATHER_LONG_MSG_SIZE := 524288;
  MPIR_Allgather_alg_intra_choice := intra;
  MPIR_Allgather_alg_inter_choice := inter;
  MPIR_CVAR_ALLGATHER_DEVICE_COLLECTIVE := false;
  MPIR_CVAR_DEVICE_COLLECTIVES := true
|}.

(** A runtime whose handle test rejects every call with code 2, and
    whose error handler returns the code plus 100 when it is given no
    communicator. *)
Definition rejecting : Runtime := {|
  Mem := nat;
  coll_impl := fun _ _ f m => (MPI_SUCCESS, f, S m);
  MPID_Ineighbor_allgather := fun _ m => (MPI_SUCCESS, 7, S m);
  MPIR_Wait_impl := fun _ m => (MPI_SUCCESS, S m);
  MPIR_ERR_POP := fun _ e => e;
  MPIR_ERR_SET := fun _ class _ => class;
  MPIR_ERRTEST_COMM := fun _ => 2;
  MPIR_ERRTEST_ARGS := fun _ => MPI_SUCCESS;
  FCNAME_MPI_Allgather := "MPI_Allgather";
  MPIR_Err_create_code := fun e _ _ => e;
  MPIR_Err_return_comm := fun c _ e =>
    match c with Some _ => e | None => e + 100 end
|}.

(** A runtime whose collective routines keep the zero-size contract:
    they return at once on a call of size zero, and count themselves in
    the memory otherwise. *)
Definition at_once : Runtime := {|
  Mem := nat;
  coll_impl := fun _ a f m =>
    if zero_size_call a then (MPI_SUCCESS, f, m) else (MPI_SUCCESS, f, S m);
  MPID_Ineighbor_allgather := fun _ m => (MPI_SUCCESS, 7, S m);
  MPIR_Wait_impl := fun _ m => (MPI_SUCCESS, S m);
  MPIR_ERR_POP := fun _ e => e;
  MPIR_ERR_SET := fun _ class _ => class;
  MPIR_ERRTEST_COMM := fun _ => MPI_SUCCESS;
  MPIR_ERRTEST_ARGS := fun _ => MPI_SUCCESS;
  FCNAME_MPI_Allgather := "MPI_Allgather";
  MPIR_Err_create_code := fun e _ _ => e;
  MPIR_Err_return_comm := fun _ _ e => e
|}.

(** A group of three processes, not in place, every process with its
    send buffer at 100 and its receive buffer at 4096; at the start each
    memory holds the process's own contribution in the send buffer and
    nothing else. *)
Definition group3 (r : Z) : Args := Sample.args 100 2 (Sample.intra r 3).

Definition group3_start : Z -> Memory :=
  fun r x => if x =? 100 then Some r else None.

End SampleMore.

(** * Properties *)

(** ** Facts about machine integers *)

Module CIntFacts.

Lemma wrap_fits w x : 1 <= w -> fits w x -> wrap w x = x.
Proof.
  unfold wrap, fits. intros Hw Hx.
  assert (E : 2 ^ w = 2 * 2 ^ (w - 1)).
  { replace w with (Z.succ (w - 1)) at 1 by lia.
    rewrite Z.pow_succ_r by lia. reflexivity. }
  rewrite Z.mod_small by lia. lia.
Qed.

Lemma int_wrap_fits x : fits_int x -> int_wrap x = x.
Proof. apply wrap_fits. unfold int_bits. lia. Qed.

Lemma aint_wrap_fits x : fits_aint x -> aint_wrap x = x.
Proof. apply wrap_fits. unfold aint_bits. lia. Qed.

Lemma fits_int_iff x : fits_int x <-> - INT_MAX - 1 <= x <= INT_MAX.
Proof.
  unfold fits_int, fits, int_bits, INT_MAX.
  change (2 ^ (32 - 1)) with 2147483648. lia.
Qed.

Lemma c_mod_nonneg a b : 0 <= a -> 0 < b -> c_mod a b = a mod b.
Proof. intros. unfold c_mod. apply Z.rem_mod_nonneg; lia. Qed.

Lemma land_pred_pow2 k : 0 <= k -> Z.land (2 ^ k) (2 ^ k - 1) = 0.
Proof.
  intros Hk. replace (2 ^ k - 1) with (Z.ones k)
    by (rewrite Z.ones_equiv; lia).
  rewrite Z.land_ones by lia.
  apply Z.mod_same. apply Z.pow_nonzero; lia.
Qed.

Lemma land_pred_zero_pow2 n : 1 <= n -> Z.land n (n - 1) = 0 -> is_pow2 n.
Proof.
  intros Hn Hland.
  pose proof (Z.log2_spec n ltac:(lia)) as [Hlo Hhi].
  pose proof (Z.log2_nonneg n) as Hk.
  exists (Z.log2 n). split; [assumption|].
  destruct (Z.eq_dec n (2 ^ Z.log2 n)) as [E|NE]; [assumption|exfalso].
  assert (Hlog : Z.log2 (n - 1) = Z.log2 n).
  { apply Z.log2_unique; lia. }
  assert (Hb1 : Z.testbit n (Z.log2 n) = true) by (apply Z.bit_log2; lia).
  assert (Hb2 : Z.testbit (n - 1) (Z.log2 n) = true).
  { rewrite <- Hlog. apply Z.bit_log2.
    pose proof (Z.pow_pos_nonneg 2 (Z.log2 n)). lia. }
  assert (Hb : Z.testbit (Z.land n (n - 1)) (Z.log2 n) = true).
  { rewrite Z.land_spec, Hb1, Hb2. reflexivity. }
  rewrite Hland, Z.bits_0 in Hb. discriminate.
Qed.

Lemma pow2_test n :
  1 <= n -> (Z.land n (n - 1) =? 0) = true <-> is_pow2 n.
Proof.
  intros Hn. rewrite Z.eqb_eq. split.
  - apply land_pred_zero_pow2; assumption.
  - intros [k [Hk ->]]. apply land_pred_pow2; assumption.
Qed.

(** On a positive [int] the test of the code, [!(n & (n - 1))],
    holds exactly of the powers of two. *)
Lemma comm_size_is_pof2_spec n :
  1 <= n <= INT_MAX -> comm_size_is_pof2 n = true <-> is_pow2 n.
Proof.
  intros Hn. unfold comm_size_is_pof2, c_true.
  rewrite int_wrap_fits by (apply fits_int_iff; unfold INT_MAX in *; lia).
  rewrite negb_involutive. apply pow2_test. lia.
Qed.

Lemma tot_bytes_exact a :
  fits_int (MPIR_Datatype_get_size (recvtype a)) ->
  fits_aint (recvcount a * local_size (comm_ptr a)) ->
  fits_aint (recvcount a * local_size (comm_ptr a)
             * MPIR_Datatype_get_size (recvtype a)) ->
  tot_bytes a
  = recvcount a * local_size (comm_ptr a)
    * MPIR_Datatype_get_size (recvtype a).
Proof.
  intros H0 H1 H2. unfold tot_bytes. cbv zeta.
  rewrite (int_wrap_fits _ H0), (aint_wrap_fits _ H1).
  apply aint_wrap_fits, H2.
Qed.

End CIntFacts.
Import CIntFacts.

(** ** The call log *)

Section CallFacts.
Context {R : Runtime}.

Lemma call_invokes r a w : invokes r a w (snd (call r a w)).
Proof.
  unfold invokes, call.
  destruct (coll_impl r a (errflag w) (mem w)) as [[e f] m].
  exists e. reflexivity.
Qed.

Lemma call_log r a w :
  calls (snd (call r a w)) = calls w ++ [Call r a (fst (call r a w))].
Proof.
  unfold call.
  destruct (coll_impl r a (errflag w) (mem w)) as [[e f] m].
  reflexivity.
Qed.

Lemma zero_size_call_false a :
  sendcount a <> 0 -> recvcount a <> 0 -> zero_size_call a = false.
Proof.
  intros Hs Hr. unfold zero_size_call.
  apply Z.eqb_neq in Hs, Hr. rewrite Hs, Hr. reflexivity.
Qed.

(** What [MPIR_Allgather_intra] does on a call that is not of size
    zero: it calls the routine of the selection policy, once, and
    derives its return code from that routine's code and from the
    error flag the routine leaves behind. *)
Lemma MPIR_Allgather_intra_selected cvars a w :
  zero_size_call a = false ->
  let r := selection_policy (MPIR_CVAR_ALLGATHER_SHORT_MSG_SIZE cvars)
             (MPIR_CVAR_ALLGATHER_LONG_MSG_SIZE cvars)
             (tot_bytes a) (comm_size_is_pof2 (local_size (comm_ptr a))) in
  let ret := fst (call r a w) in
  let w' := snd (call r a w) in
  MPIR_Allgather_intra cvars a w =
  (if negb (errflag w' =? MPIR_ERR_NONE)
   then MPIR_ERR_SET "MPIR_Allgather_intra" (errflag w') "**coll_fail"
   else if c_true ret then MPIR_ERR_POP "MPIR_Allgather_intra" ret else ret,
   w').
Proof.
  intros Hz. unfold MPIR_Allgather_intra, selection_policy. rewrite Hz.
  destruct ((tot_bytes a <? MPIR_CVAR_ALLGATHER_LONG_MSG_SIZE cvars)
            && comm_size_is_pof2 (local_size (comm_ptr a)));
    [|destruct (tot_bytes a <? MPIR_CVAR_ALLGATHER_SHORT_MSG_SIZE cvars)];
    cbv zeta;
    match goal with |- context [call ?r a w] =>
      destruct (call r a w) as [e w1] end;
    reflexivity.
Qed.

Lemma MPIR_Allgather_intra_invokes cvars a w :
  zero_size_call a = false ->
  invokes
    (selection_policy (MPIR_CVAR_ALLGATHER_SHORT_MSG_SIZE cvars)
       (MPIR_CVAR_ALLGATHER_LONG_MSG_SIZE cvars)
       (tot_bytes a) (comm_size_is_pof2 (local_size (comm_ptr a))))
    a w (snd (MPIR_Allgather_intra cvars a w)).
Proof.
  intros Hz. rewrite (MPIR_Allgather_intra_selected cvars a w Hz).
  apply call_invokes.
Qed.

End CallFacts.

(** ** Automatic selection (allgather.c, MPIR_Allgather_intra) *)

(** C1.  For an intra-group call with nonzero send and receive counts
    that goes through the automatic selection, let
    [n = recvcount * size * type_size] (the group size being a positive
    [int], the size of the datatype fitting the [int] it is stored in,
    and the products being representable in [MPI_Aint]).  If [n]
    is below the long-message threshold and [size] is a power of two,
    recursive doubling is the routine called; otherwise, if [n] is below
    the short-message threshold, Bruck's algorithm is; otherwise the
    ring algorithm is.  In particular a power-of-two group with [n]
    between the short and the long threshold still gets recursive
    doubling. *)
Theorem C1_automatic_selection {R : Runtime} (cvars : Cvars) (a : Args)
    (w : World) :
  sendcount a <> 0 ->
  recvcount a <> 0 ->
  1 <= local_size (comm_ptr a) <= INT_MAX ->
  fits_int (MPIR_Datatype_get_size (recvtype a)) ->
  fits_aint (recvcount a * local_size (comm_ptr a)) ->
  fits_aint (recvcount a * local_size (comm_ptr a)
             * MPIR_Datatype_get_size (recvtype a)) ->
  let size := local_size (comm_ptr a) in
  let n := recvcount a * size * MPIR_Datatype_get_size (recvtype a) in
  let short_msg := MPIR_CVAR_ALLGATHER_SHORT_MSG_SIZE cvars in
  let long_msg := MPIR_CVAR_ALLGATHER_LONG_MSG_SIZE cvars in
  let w' := snd (MPIR_Allgather_intra cvars a w) in
  (n < long_msg /\ is_pow2 size ->
   invokes MPIR_Allgather_recursive_doubling a w w')
  /\ (~ (n < long_msg /\ is_pow2 size) -> n < short_msg ->
      invokes MPIR_Allgather_brucks a w w')
  /\ (~ (n < long_msg /\ is_pow2 size) -> ~ n < short_msg ->
      invokes MPIR_Allgather_ring a w w')
  /\ (is_pow2 size -> short_msg <= n < long_msg ->
      invokes MPIR_Allgather_recursive_doubling a w w').
Proof.
  intros Hs Hr Hsize Hfit0 Hfit1 Hfit2 size n short_msg long_msg w'.
  pose proof (MPIR_Allgather_intra_invokes cvars a w
                (zero_size_call_false a Hs Hr)) as Hinv.
  fold w' in Hinv. rewrite (tot_bytes_exact a Hfit0 Hfit1 Hfit2) in Hinv.
  fold size n short_msg long_msg in Hinv.
  pose proof (comm_size_is_pof2_spec size Hsize) as Hpow.
  assert (Hrd : n < long_msg -> is_pow2 size ->
                invokes MPIR_Allgather_recursive_doubling a w w').
  { intros Hl Hp. apply Hpow in Hp. apply Z.ltb_lt in Hl.
    unfold selection_policy in Hinv. rewrite Hl, Hp in Hinv. exact Hinv. }
  assert (Hnot : ~ (n < long_msg /\ is_pow2 size) ->
                 (n <? long_msg) && comm_size_is_pof2 size = false).
  { intros Hn. apply not_true_is_false. intros Hc.
    apply andb_prop in Hc. destruct Hc as [Hl Hp].
    apply Hn. split; [apply Z.ltb_lt, Hl | apply Hpow, Hp]. }
  repeat split.
  - intros [Hl Hp]. exact (Hrd Hl Hp).
  - intros Hn Hshort. apply Hnot in Hn. apply Z.ltb_lt in Hshort.
    unfold selection_policy in Hinv. rewrite Hn, Hshort in Hinv. exact Hinv.
  - intros Hn Hshort. apply Hnot in Hn. apply Z.ltb_nlt in Hshort.
    unfold selection_policy in Hinv. rewrite Hn, Hshort in Hinv. exact Hinv.
  - intros Hp [_ Hl]. exact (Hrd Hl Hp).
Qed.

(** C1 at a concrete call: four processes, 10000 ints each, so that
    [n = 160000] lies between the default thresholds. *)
Lemma C1_automatic_selection_witness :
  let a := Sample.args 100 10000 (Sample.intra 2 4) in
  let w := Sample.world0 Sample.quiet 0%nat in
  (sendcount a <> 0 /\ recvcount a <> 0
   /\ 1 <= local_size (comm_ptr a) <= INT_MAX
   /\ fits_int (MPIR_Datatype_get_size (recvtype a))
   /\ is_pow2 (local_size (comm_ptr a))
   /\ 81920 <= recvcount a * local_size (comm_ptr a)
               * MPIR_Datatype_get_size (recvtype a) < 524288)
  /\ invokes (R := Sample.quiet) MPIR_Allgather_recursive_doubling a w
       (snd (MPIR_Allgather_intra (default_cvars true) a w)).
Proof.
  intros a w.
  assert (Hs : sendcount a <> 0) by (vm_compute; discriminate).
  assert (Hr : recvcount a <> 0) by (vm_compute; discriminate).
  assert (Hsize : 1 <= local_size (comm_ptr a) <= INT_MAX)
    by (vm_compute; split; discriminate).
  assert (Hint : fits_int (MPIR_Datatype_get_size (recvtype a)))
    by (vm_compute; split; [discriminate | reflexivity]).
  assert (Hpow : is_pow2 (local_size (comm_ptr a)))
    by (exists 2; split; [lia | reflexivity]).
  assert (Hn : 81920 <= recvcount a * local_size (comm_ptr a)
                        * MPIR_Datatype_get_size (recvtype a) < 524288)
    by (vm_compute; split; [discriminate | reflexivity]).
  split; [repeat split; try assumption; apply Hsize || apply Hn|].
  refine (proj2 (proj2 (proj2
    (C1_automatic_selection (R := Sample.quiet) (default_cvars true) a w
       Hs Hr Hsize Hint _ _))) Hpow Hn);
    vm_compute; split; (discriminate || reflexivity).
Defined.

(** C9.  The automatic selection is the same on every member of a
    group: two calls that reach the selection with equal receive count,
    equal receive-type size and equal group size, under one
    configuration, call the same routine, namely the one the policy
    assigns to [tot_bytes] and to whether the group size is a power of
    two.  Ranks, buffers, send arguments, memory contents and the error
    flag may all differ. *)
Theorem C9_selection_rank_independent {R : Runtime} (cvars : Cvars)
    (a1 a2 : Args) (w1 w2 : World) :
  zero_size_call a1 = false ->
  zero_size_call a2 = false ->
  recvcount a1 = recvcount a2 ->
  MPIR_Datatype_get_size (recvtype a1) = MPIR_Datatype_get_size (recvtype a2) ->
  local_size (comm_ptr a1) = local_size (comm_ptr a2) ->
  let r := selection_policy (MPIR_CVAR_ALLGATHER_SHORT_MSG_SIZE cvars)
             (MPIR_CVAR_ALLGATHER_LONG_MSG_SIZE cvars)
             (tot_bytes a1) (comm_size_is_pof2 (local_size (comm_ptr a1))) in
  invokes r a1 w1 (snd (MPIR_Allgather_intra cvars a1 w1))
  /\ invokes r a2 w2 (snd (MPIR_Allgather_intra cvars a2 w2)).
Proof.
  intros Hz1 Hz2 Hcount Htype Hsize r. split.
  - apply MPIR_Allgather_intra_invokes, Hz1.
  - assert (E : tot_bytes a2 = tot_bytes a1)
      by (unfold tot_bytes; rewrite Hcount, Htype, Hsize; reflexivity).
    subst r. rewrite <- E, Hsize.
    apply MPIR_Allgather_intra_invokes, Hz2.
Qed.

(** C9 at two members of a group of five: rank 0 with its own send
    buffer, rank 3 in place, the second starting from a memory that has
    already seen traffic. *)
Lemma C9_selection_rank_independent_witness :
  let a1 := Sample.args 100 30000 (Sample.intra 0 5) in
  let a2 := Sample.args MPI_IN_PLACE 30000 (Sample.intra 3 5) in
  let w1 := Sample.world0 Sample.quiet 0%nat in
  let w2 := Sample.world0 Sample.quiet 8%nat in
  invokes (R := Sample.quiet) MPIR_Allgather_ring a1 w1
    (snd (MPIR_Allgather_intra (default_cvars true) a1 w1))
  /\ invokes (R := Sample.quiet) MPIR_Allgather_ring a2 w2
       (snd (MPIR_Allgather_intra (default_cvars true) a2 w2)).
Proof.
  intros a1 a2 w1 w2.
  exact (C9_selection_rank_independent (R := Sample.quiet)
           (default_cvars true) a1 a2 w1 w2
           eq_refl eq_refl eq_refl eq_refl eq_refl).
Defined.

(** ** Zero-size calls, the failure flag, the dispatchers *)

Section DispatchFacts.
Context {R : Runtime}.

Lemma zero_size_call_true a :
  (sendcount a = 0 /\ sendbuf a <> MPI_IN_PLACE) \/ recvcount a = 0 ->
  zero_size_call a = true.
Proof.
  unfold zero_size_call. intros [[Hs Hb]|Hr].
  - apply Z.eqb_eq in Hs. apply Z.eqb_neq in Hb. rewrite Hs, Hb. reflexivity.
  - apply Z.eqb_eq in Hr. rewrite Hr. apply orb_true_r.
Qed.

(** Validation leaves [MPI_SUCCESS] only when both of its stages do. *)
Lemma MPIR_ERRTEST_passed a :
  MPIR_ERRTEST a = MPI_SUCCESS ->
  MPIR_ERRTEST_COMM a = MPI_SUCCESS /\ MPIR_ERRTEST_ARGS a = MPI_SUCCESS.
Proof.
  unfold MPIR_ERRTEST, c_true.
  destruct (MPIR_ERRTEST_COMM a =? 0) eqn:E; cbn [negb]; intros H.
  - split; [apply Z.eqb_eq, E | exact H].
  - apply Z.eqb_neq in E. contradiction.
Qed.

(** [MPIR_Allgather] ends with [if (mpi_errno) MPIR_ERR_POP]: the
    world it returns is the world of the branch it took. *)
Lemma MPIR_Allgather_forced cvars a w r :
  forced_routine cvars (comm_kind (comm_ptr a)) = Some r ->
  snd (MPIR_Allgather cvars a w) = snd (call r a w).
Proof.
  unfold forced_routine, MPIR_Allgather, MPIR_Allgather_inter.
  destruct (comm_kind (comm_ptr a));
    [destruct (MPIR_Allgather_alg_intra_choice cvars)
    |destruct (MPIR_Allgather_alg_inter_choice cvars)];
    intros E; inversion E; subst;
    destruct (call _ a w) as [e w1]; cbn; destruct (c_true e); reflexivity.
Qed.

Lemma MPIR_Allgather_forced_code cvars a w r :
  forced_routine cvars (comm_kind (comm_ptr a)) = Some r ->
  r <> MPID_Allgather
  /\ fst (MPIR_Allgather cvars a w)
     = (let e := fst (call r a w) in
        if c_true e then MPIR_ERR_POP "MPIR_Allgather" e else e).
Proof.
  unfold forced_routine, MPIR_Allgather, MPIR_Allgather_inter.
  destruct (comm_kind (comm_ptr a));
    [destruct (MPIR_Allgather_alg_intra_choice cvars)
    |destruct (MPIR_Allgather_alg_inter_choice cvars)];
    intros E; inversion E; subst; (split; [discriminate|]);
    destruct (call _ a w) as [e w1]; cbn; destruct (c_true e); reflexivity.
Qed.

Lemma MPIR_Allgather_auto cvars a w :
  forced_routine cvars (comm_kind (comm_ptr a)) = None ->
  MPIR_Allgather cvars a w
  = (let e := fst (MPIR_Allgather_intra cvars a w) in
     if c_true e then MPIR_ERR_POP "MPIR_Allgather" e else e,
     snd (MPIR_Allgather_intra cvars a w)).
Proof.
  unfold forced_routine, MPIR_Allgather.
  destruct (comm_kind (comm_ptr a));
    [destruct (MPIR_Allgather_alg_intra_choice cvars)|];
    intros E; try discriminate E.
  destruct (MPIR_Allgather_intra cvars a w) as [e w1]; cbn.
  destruct (c_true e); reflexivity.
Qed.

(** [MPIR_Allgather] never calls the device routine: its log grows by
    nothing, or by one call of a routine of this layer. *)
Lemma MPIR_Allgather_log cvars a w :
  calls (snd (MPIR_Allgather cvars a w)) = calls w
  \/ exists r ret, r <> MPID_Allgather
       /\ calls (snd (MPIR_Allgather cvars a w)) = calls w ++ [Call r a ret].
Proof.
  destruct (forced_routine cvars (comm_kind (comm_ptr a))) as [r|] eqn:E.
  - right. rewrite (MPIR_Allgather_forced cvars a w r E), call_log.
    exists r, (fst (call r a w)). split; [|reflexivity].
    unfold forced_routine in E.
    destruct (comm_kind (comm_ptr a));
      [destruct (MPIR_Allgather_alg_intra_choice cvars)|];
      inversion E; discriminate.
  - rewrite (MPIR_Allgather_auto cvars a w E). cbn [snd].
    destruct (zero_size_call a) eqn:Hz.
    + left. unfold MPIR_Allgather_intra. rewrite Hz. reflexivity.
    + right. destruct (MPIR_Allgather_intra_invokes cvars a w Hz) as [ret Hret].
      eexists; exists ret. split; [|exact Hret].
      unfold selection_policy.
      destruct (_ && _); [|destruct (_ <? _)]; discriminate.
Qed.

End DispatchFacts.

(** C3.  A call of size zero (send count zero and not in place, or
    receive count zero) returns [MPI_SUCCESS] and moves nothing,
    whatever the path.  Through the automatic intra-group selection it
    returns at once: no routine is called, and memory, error flag and
    call log are what they were.  When the configuration forces an
    algorithm, or the group is an inter-group, [MPIR_Allgather] hands
    the call to the configured routine; that routine returning at once on
    a call of size zero, as the specification has it
    ([zero_size_contract]), the call returns [MPI_SUCCESS] with the
    memory and the error flag as they were, the one call of the routine
    being all that happened. *)
Theorem C3_zero_size_is_a_noop {R : Runtime} (cvars : Cvars) (a : Args)
    (w : World) :
  (sendcount a = 0 /\ sendbuf a <> MPI_IN_PLACE) \/ recvcount a = 0 ->
  MPIR_Allgather_intra cvars a w = (MPI_SUCCESS, w)
  /\ (comm_kind (comm_ptr a) = MPIR_COMM_KIND__INTRACOMM ->
      MPIR_Allgather_alg_intra_choice cvars = MPIR_ALLGATHER_ALG_INTRA_AUTO ->
      MPIR_Allgather cvars a w = (MPI_SUCCESS, w))
  /\ (zero_size_contract R ->
      fst (MPIR_Allgather cvars a w) = MPI_SUCCESS
      /\ mem (snd (MPIR_Allgather cvars a w)) = mem w
      /\ errflag (snd (MPIR_Allgather cvars a w)) = errflag w
      /\ forall r, forced_routine cvars (comm_kind (comm_ptr a)) = Some r ->
           calls (snd (MPIR_Allgather cvars a w))
           = calls w ++ [Call r a MPI_SUCCESS]).
Proof.
  intros Hz. apply zero_size_call_true in Hz.
  assert (Hintra : MPIR_Allgather_intra cvars a w = (MPI_SUCCESS, w))
    by (unfold MPIR_Allgather_intra; rewrite Hz; reflexivity).
  split; [exact Hintra|]. split.
  - intros Hkind Hauto. rewrite MPIR_Allgather_auto.
    + rewrite Hintra. reflexivity.
    + unfold forced_routine. rewrite Hkind, Hauto. reflexivity.
  - intros Hcontract.
    destruct (forced_routine cvars (comm_kind (comm_ptr a))) as [r|] eqn:E.
    + destruct (MPIR_Allgather_forced_code cvars a w r E) as [Hr Hcode].
      rewrite Hcode, (MPIR_Allgather_forced cvars a w r E).
      unfold call. rewrite (Hcontract r a (errflag w) (mem w) Hr Hz).
      cbn [fst snd mem errflag calls].
      change (c_true MPI_SUCCESS) with false. cbv iota.
      split; [reflexivity|]. split; [reflexivity|]. split; [reflexivity|].
      intros r' Hr'. inversion Hr'. reflexivity.
    + rewrite (MPIR_Allgather_auto cvars a w E), Hintra. cbn [fst snd].
      change (c_true MPI_SUCCESS) with false. cbv iota.
      split; [reflexivity|]. split; [reflexivity|]. split; [reflexivity|].
      intros r' Hr'. discriminate Hr'.
Qed.

(** C3 at a call with receive count zero, the ring algorithm forced and
    the routines keeping the zero-size contract. *)
Lemma C3_zero_size_is_a_noop_witness :
  let a := Sample.args 100 0 (Sample.intra 1 4) in
  let w := Sample.world0 SampleMore.at_once 6%nat in
  fst (MPIR_Allgather Sample.forced_ring a w) = MPI_SUCCESS
  /\ mem (snd (MPIR_Allgather Sample.forced_ring a w)) = 6%nat
  /\ errflag (snd (MPIR_Allgather Sample.forced_ring a w)) = MPIR_ERR_NONE.
Proof.
  intros a w.
  assert (Hcontract : zero_size_contract SampleMore.at_once).
  { intros r a' flag m _ Hzero. cbn. rewrite Hzero. reflexivity. }
  pose proof (proj2 (proj2 (C3_zero_size_is_a_noop (R := SampleMore.at_once)
                              Sample.forced_ring a w (or_intror eq_refl)))
                    Hcontract) as H.
  split; [exact (proj1 H)|]. split; [exact (proj1 (proj2 H))|].
  exact (proj1 (proj2 (proj2 H))).
Defined.

(** C6.  On a call that reaches the selection, [MPIR_Allgather_intra]
    calls the routine of the selection policy once and ends in the world
    that routine leaves: its memory, the error flag it left, and the log
    grown by that one call.  If the flag the routine left is set, the
    result is the code that [MPIR_ERR_SET] builds from the flag and
    ["**coll_fail"], an error whatever code the routine returned,
    success included.  If that flag is clear and the routine returned
    success, the result is success.  (The macro is assumed to build an
    error code from an error class.) *)
Theorem C6_failure_flag_at_exit {R : Runtime} (cvars : Cvars) (a : Args)
    (w : World) :
  zero_size_call a = false ->
  (forall fcname class msg,
      class <> MPI_SUCCESS -> MPIR_ERR_SET fcname class msg <> MPI_SUCCESS) ->
  let r := selection_policy (MPIR_CVAR_ALLGATHER_SHORT_MSG_SIZE cvars)
             (MPIR_CVAR_ALLGATHER_LONG_MSG_SIZE cvars)
             (tot_bytes a) (comm_size_is_pof2 (local_size (comm_ptr a))) in
  let ret := fst (fst (coll_impl r a (errflag w) (mem w))) in
  let flag := snd (fst (coll_impl r a (errflag w) (mem w))) in
  let m := snd (coll_impl r a (errflag w) (mem w)) in
  snd (MPIR_Allgather_intra cvars a w)
  = {| mem := m; errflag := flag; calls := calls w ++ [Call r a ret] |}
  /\ (flag <> MPIR_ERR_NONE ->
      fst (MPIR_Allgather_intra cvars a w)
      = MPIR_ERR_SET "MPIR_Allgather_intra" flag "**coll_fail"
      /\ fst (MPIR_Allgather_intra cvars a w) <> MPI_SUCCESS)
  /\ (flag = MPIR_ERR_NONE ->
      ret = MPI_SUCCESS ->
      fst (MPIR_Allgather_intra cvars a w) = MPI_SUCCESS).
Proof.
  intros Hz Hset r ret flag m.
  rewrite (MPIR_Allgather_intra_selected cvars a w Hz). cbn [fst snd].
  fold r. unfold call.
  subst ret flag m.
  destruct (coll_impl r a (errflag w) (mem w)) as [[e f] m'].
  cbn [fst snd errflag]. split; [reflexivity|]. split.
  - intros Hflag. apply Z.eqb_neq in Hflag as Hb. rewrite Hb. cbn [negb].
    split; [reflexivity|]. apply Hset. exact Hflag.
  - intros Hflag Hret. apply Z.eqb_eq in Hflag. rewrite Hflag, Hret.
    reflexivity.
Qed.

(** C6 at a concrete call on five processes: the ring routine returns
    success and leaves the flag raised to 15; the call returns the error
    15 and the flag is still 15 at exit. *)
Lemma C6_failure_flag_at_exit_witness :
  let R := Sample.runtime 0 15 0 0 in
  let a := Sample.args 100 30000 (Sample.intra 2 5) in
  let w := Sample.world0 R 0%nat in
  snd (MPIR_Allgather_intra (default_cvars true) a w)
  = {| mem := 1%nat; errflag := 15;
       calls := [Call MPIR_Allgather_ring a MPI_SUCCESS] |}
  /\ fst (MPIR_Allgather_intra (default_cvars true) a w) = 15
  /\ fst (MPIR_Allgather_intra (default_cvars true) a w) <> MPI_SUCCESS.
Proof.
  intros R a w.
  pose proof (C6_failure_flag_at_exit (R := R) (default_cvars true) a w
                eq_refl (fun _ class _ Hclass => Hclass)) as H.
  split; [exact (proj1 H)|].
  exact (proj1 (proj2 H) ltac:(discriminate)).
Defined.

(** ** The public entry point (allgather.c, MPI_Allgather) *)

(** C7, as it holds.  On a call that passes argument validation, the
    device routine [MPID_Allgather] is called exactly when both
    switches, [MPIR_CVAR_ALLGATHER_DEVICE_COLLECTIVE] and the global
    [MPIR_CVAR_DEVICE_COLLECTIVES], are on.  When either is off,
    [MPIR_Allgather] runs instead: the call ends in the world
    [MPIR_Allgather] produces, returns its code (through [fn_fail] when
    it is an error), and the device routine is not called. *)
Theorem C7_device_needs_both_switches {R : Runtime} (cvars : Cvars)
    (a : Args) (w : World) :
  MPIR_ERRTEST a = MPI_SUCCESS ->
  let w0 := {| mem := mem w; errflag := MPIR_ERR_NONE; calls := calls w |} in
  (MPIR_CVAR_ALLGATHER_DEVICE_COLLECTIVE cvars = true
   /\ MPIR_CVAR_DEVICE_COLLECTIVES cvars = true ->
   invokes MPID_Allgather a w (snd (MPI_Allgather cvars a w)))
  /\ (MPIR_CVAR_ALLGATHER_DEVICE_COLLECTIVE cvars = false
      \/ MPIR_CVAR_DEVICE_COLLECTIVES cvars = false ->
      snd (MPI_Allgather cvars a w) = snd (MPIR_Allgather cvars a w0)
      /\ fst (MPI_Allgather cvars a w)
         = (let e := fst (MPIR_Allgather cvars a w0) in
            if c_true e then MPI_Allgather_fn_fail a e else e)
      /\ forall a' ret,
           In (Call MPID_Allgather a' ret) (calls (snd (MPI_Allgather cvars a w))) ->
           In (Call MPID_Allgather a' ret) (calls w)).
Proof.
  intros Hvalid w0. destruct (MPIR_ERRTEST_passed a Hvalid) as [Hc Ha'].
  unfold MPI_Allgather. rewrite Hc, Ha'.
  change (c_true MPI_SUCCESS) with false. cbv iota. fold w0. split.
  - intros [Ha Hg]. rewrite Ha, Hg. cbn [andb].
    pose proof (call_invokes MPID_Allgather a w0) as Hinv.
    destruct (call MPID_Allgather a w0) as [e w1]. cbn [snd] in Hinv.
    destruct (c_true e); exact Hinv.
  - intros Hoff.
    assert (Hand : MPIR_CVAR_ALLGATHER_DEVICE_COLLECTIVE cvars
                   && MPIR_CVAR_DEVICE_COLLECTIVES cvars = false).
    { destruct Hoff as [E|E]; rewrite E;
        [reflexivity | apply andb_false_r]. }
    rewrite Hand.
    pose proof (MPIR_Allgather_log cvars a w0) as Hlog.
    destruct (MPIR_Allgather cvars a w0) as [e w1]. cbn [fst snd] in *.
    assert (Hdev : forall a' ret,
               In (Call MPID_Allgather a' ret) (calls w1) ->
               In (Call MPID_Allgather a' ret) (calls w)).
    { intros a' ret Hin. destruct Hlog as [E|[r [ret' [Hr E]]]];
        rewrite E in Hin; [exact Hin|].
      apply in_app_or in Hin. destruct Hin as [Hin|[Hin|[]]];
        [exact Hin | congruence]. }
    destruct (c_true e); cbn [fst snd]; repeat split; assumption.
Qed.

(** C7 at a concrete call, with the global switch off and the
    all-gather switch on. *)
Lemma C7_device_needs_both_switches_witness :
  let a := Sample.args 100 1000 (Sample.intra 2 4) in
  let w := Sample.world0 Sample.quiet 0%nat in
  snd (MPI_Allgather (R := Sample.quiet) (default_cvars false) a w)
  = snd (MPIR_Allgather (R := Sample.quiet) (default_cvars false) a w).
Proof.
  intros a w.
  exact (proj1 (proj2 (C7_device_needs_both_switches (R := Sample.quiet)
                         (default_cvars false) a w eq_refl)
                      (or_intror eq_refl))).
Defined.

(** C7 as stated fails: with [MPIR_CVAR_ALLGATHER_DEVICE_COLLECTIVE] on
    (its default) and the global [MPIR_CVAR_DEVICE_COLLECTIVES] off, a
    valid call runs this layer's recursive doubling and the device
    routine is not called. *)
Lemma C7_single_switch_counterexample :
  let cvars := default_cvars false in
  let a := Sample.args 100 1000 (Sample.intra 2 4) in
  let w := Sample.world0 Sample.quiet 0%nat in
  MPIR_CVAR_ALLGATHER_DEVICE_COLLECTIVE cvars = true
  /\ MPIR_ERRTEST (Runtime := Sample.quiet) a = MPI_SUCCESS
  /\ calls (snd (MPI_Allgather (R := Sample.quiet) cvars a w))
     = [Call MPIR_Allgather_recursive_doubling a MPI_SUCCESS]
  /\ ~ invokes (R := Sample.quiet) MPID_Allgather a w
         (snd (MPI_Allgather cvars a w)).
Proof.
  intros cvars a w. repeat split.
  intros [ret Hret]. vm_compute in Hret. discriminate Hret.
Qed.

(** ** The blocking neighbor all-gather (nhb_allgather_nb.c) *)

Section NeighborFacts.
Context {R : Runtime}.

Lemma start_log a w :
  calls (snd (call_MPID_Ineighbor_allgather a w))
  = calls w ++ [Call_MPID_Ineighbor_allgather a
                  (fst (fst (call_MPID_Ineighbor_allgather a w)))
                  (snd (fst (call_MPID_Ineighbor_allgather a w)))].
Proof.
  unfold call_MPID_Ineighbor_allgather.
  destruct (MPID_Ineighbor_allgather a (mem w)) as [[e req] m].
  reflexivity.
Qed.

Lemma c_true_eqb e : c_true e = negb (e =? MPI_SUCCESS).
Proof. reflexivity. Qed.

End NeighborFacts.

(** C8.  The blocking neighbor all-gather is the composition "start the
    non-blocking neighbor all-gather, then wait on the request it
    returned": it ends in the very world that composition ends in
    (memory, error flag and call log; nothing is moved besides what the
    two calls move), and it returns the composition's outcome, success
    as success and an error code as [MPIR_ERR_POP] hands it up.  Where
    [MPIR_ERR_POP] hands a code up unchanged, the two are equal
    outright. *)
Theorem C8_neighbor_is_start_then_wait {R : Runtime} (a : Args) (w : World) :
  MPIR_Neighbor_allgather_nb a w
  = (propagated "MPIR_Neighbor_allgather_nb" (fst (start_then_wait a w)),
     snd (start_then_wait a w))
  /\ ((forall e, MPIR_ERR_POP "MPIR_Neighbor_allgather_nb" e = e) ->
      MPIR_Neighbor_allgather_nb a w = start_then_wait a w).
Proof.
  assert (Hgen : MPIR_Neighbor_allgather_nb a w
                 = (propagated "MPIR_Neighbor_allgather_nb"
                      (fst (start_then_wait a w)),
                    snd (start_then_wait a w))).
  { unfold MPIR_Neighbor_allgather_nb, start_then_wait, propagated.
    destruct (call_MPID_Ineighbor_allgather a w) as [[e req] w1].
    rewrite c_true_eqb.
    destruct (e =? MPI_SUCCESS) eqn:He; cbn [negb fst snd].
    - destruct (call_MPIR_Wait_impl req w1) as [e2 w2].
      rewrite c_true_eqb. cbn [fst snd].
      destruct (e2 =? MPI_SUCCESS) eqn:He2; cbn [negb]; [|reflexivity].
      apply Z.eqb_eq in He2. rewrite He2. reflexivity.
    - rewrite He. reflexivity. }
  split; [exact Hgen|].
  intros Hpop. rewrite Hgen. unfold propagated.
  destruct (start_then_wait a w) as [e w']. cbn [fst snd].
  destruct (e =? MPI_SUCCESS) eqn:He.
  - apply Z.eqb_eq in He. rewrite He. reflexivity.
  - rewrite Hpop. reflexivity.
Qed.

(** C8 at a concrete call whose start succeeds and whose wait returns
    the error 5. *)
Lemma C8_neighbor_is_start_then_wait_witness :
  let R := Sample.runtime 0 0 0 5 in
  let a := Sample.args 100 8 (Sample.intra 2 5) in
  let w := Sample.world0 R 0%nat in
  MPIR_Neighbor_allgather_nb a w = start_then_wait a w
  /\ start_then_wait a w
     = (5, {| mem := 2%nat; errflag := MPIR_ERR_NONE;
              calls := [Call_MPID_Ineighbor_allgather a 0 7;
                        Call_MPIR_Wait_impl 7 5] |}).
Proof.
  intros R a w. split; [|reflexivity].
  exact (proj2 (C8_neighbor_is_start_then_wait (R := R) a w)
               (fun e => eq_refl)).
Defined.

(** C10.  When the non-blocking start returns an error, the blocking
    neighbor all-gather returns that error, handed up by
    [MPIR_ERR_POP], in the world the start left, whose log has grown by
    the start alone, so the wait was not called.  A wait appears in the
    log of a call only if the start returned success. *)
Theorem C10_start_error_skips_wait {R : Runtime} (a : Args) (w : World) :
  let start := call_MPID_Ineighbor_allgather a w in
  let e := fst (fst start) in
  let req := snd (fst start) in
  (e <> MPI_SUCCESS ->
   MPIR_Neighbor_allgather_nb a w
   = (MPIR_ERR_POP "MPIR_Neighbor_allgather_nb" e, snd start)
   /\ calls (snd (MPIR_Neighbor_allgather_nb a w))
      = calls w ++ [Call_MPID_Ineighbor_allgather a e req])
  /\ (forall req' ret new,
         calls (snd (MPIR_Neighbor_allgather_nb a w)) = calls w ++ new ->
         In (Call_MPIR_Wait_impl req' ret) new ->
         e = MPI_SUCCESS).
Proof.
  intros start e req.
  pose proof (start_log a w) as Hlog. fold start e req in Hlog.
  assert (Herr : e <> MPI_SUCCESS ->
                 MPIR_Neighbor_allgather_nb a w
                 = (MPIR_ERR_POP "MPIR_Neighbor_allgather_nb" e, snd start)).
  { intros He. unfold MPIR_Neighbor_allgather_nb. subst e. fold start.
    destruct start as [[e0 req0] w1]. cbn [fst snd] in *.
    apply Z.eqb_neq in He. rewrite c_true_eqb, He. reflexivity. }
  split.
  - intros He. split; [exact (Herr He)|].
    rewrite (Herr He). exact Hlog.
  - intros req' ret new Hnew Hin.
    destruct (Z.eq_dec e MPI_SUCCESS) as [E|NE]; [exact E|exfalso].
    rewrite (Herr NE) in Hnew. cbn [snd] in Hnew. rewrite Hlog in Hnew.
    apply app_inv_head in Hnew. subst new.
    destruct Hin as [Hin|[]]. discriminate Hin.
Qed.

(** C10 at a concrete call whose start returns the error 3. *)
Lemma C10_start_error_skips_wait_witness :
  let R := Sample.runtime 0 0 3 0 in
  let a := Sample.args 100 8 (Sample.intra 2 5) in
  let w := Sample.world0 R 0%nat in
  MPIR_Neighbor_allgather_nb a w
  = (3, {| mem := 1%nat; errflag := MPIR_ERR_NONE;
           calls := [Call_MPID_Ineighbor_allgather a 3 7] |}).
Proof.
  intros R a w.
  exact (proj1 (proj1 (C10_start_error_skips_wait (R := R) a w)
                  ltac:(discriminate))).
Defined.

(** ** The ring schedule (iallgather_ring.c) *)

Module RingFacts.

Lemma ring_prev_spec size x :
  1 <= size <= max_ring_size -> 0 <= x < size ->
  ring_prev size x = (x - 1) mod size.
Proof.
  unfold max_ring_size. intros Hsize Hx. unfold ring_prev.
  rewrite (int_wrap_fits (size + x))
    by (apply fits_int_iff; unfold INT_MAX; lia).
  rewrite int_wrap_fits by (apply fits_int_iff; unfold INT_MAX; lia).
  rewrite c_mod_nonneg by lia.
  replace (size + x - 1) with (x - 1 + 1 * size) by lia.
  apply Z.mod_add. lia.
Qed.

Lemma ring_recv_block_cases size rank i :
  0 <= rank < size -> 1 <= i <= size - 1 ->
  ring_recv_block size rank i
  = if rank - i <? 0 then rank - i + size else rank - i.
Proof.
  intros Hr Hi. unfold ring_recv_block.
  destruct (Z.ltb_spec (rank - i) 0).
  - replace ((rank - i) mod size) with ((rank - i + 1 * size) mod size)
      by (apply Z.mod_add; lia).
    rewrite Z.mod_small by lia. lia.
  - apply Z.mod_small. lia.
Qed.

Lemma ring_recv_block_other size rank i :
  0 <= rank < size -> 1 <= i <= size - 1 ->
  0 <= ring_recv_block size rank i < size
  /\ ring_recv_block size rank i <> rank.
Proof.
  intros Hr Hi. rewrite (ring_recv_block_cases size rank i Hr Hi).
  destruct (Z.ltb_spec (rank - i) 0); lia.
Qed.

Lemma ring_recv_block_inj size rank i i' :
  0 <= rank < size -> 1 <= i <= size - 1 -> 1 <= i' <= size - 1 ->
  ring_recv_block size rank i = ring_recv_block size rank i' -> i = i'.
Proof.
  intros Hr Hi Hi'.
  rewrite (ring_recv_block_cases size rank i Hr Hi),
          (ring_recv_block_cases size rank i' Hr Hi').
  destruct (Z.ltb_spec (rank - i) 0), (Z.ltb_spec (rank - i') 0); lia.
Qed.

(** Every block other than [rank] is the block received at some
    step. *)
Lemma ring_recv_block_onto size rank b :
  0 <= rank < size -> 0 <= b < size -> b <> rank ->
  exists i, 1 <= i <= size - 1 /\ ring_recv_block size rank i = b.
Proof.
  intros Hr Hb Hne.
  exists (if rank - b <? 0 then rank - b + size else rank - b).
  destruct (Z.ltb_spec (rank - b) 0) as [Hlt|Hge].
  - split; [lia|]. rewrite ring_recv_block_cases by lia.
    destruct (Z.ltb_spec (rank - (rank - b + size)) 0); lia.
  - split; [lia|]. rewrite ring_recv_block_cases by lia.
    destruct (Z.ltb_spec (rank - (rank - b)) 0); lia.
Qed.

Lemma ring_blocks_decrement size rank i :
  0 < size ->
  ring_send_block size rank (i + 1) = (ring_send_block size rank i - 1) mod size
  /\ ring_recv_block size rank (i + 1)
     = (ring_recv_block size rank i - 1) mod size
  /\ ring_send_block size rank (i + 1) = ring_recv_block size rank i.
Proof.
  intros Hsize. unfold ring_send_block, ring_recv_block.
  rewrite !Zminus_mod_idemp_l. repeat split; f_equal; lia.
Qed.

Lemma in_step_numbers first n i :
  In i (step_numbers first n)
  <-> Z.of_nat first <= i < Z.of_nat first + Z.of_nat n.
Proof.
  unfold step_numbers. rewrite in_map_iff. split.
  - intros [k [<- Hk]]. apply in_seq in Hk. lia.
  - intros Hi. exists (Z.to_nat i). split; [lia|]. apply in_seq. lia.
Qed.

Lemma NoDup_step_numbers first n : NoDup (step_numbers first n).
Proof.
  unfold step_numbers. apply NoDup_map_NoDup_ForallPairs.
  - intros x y _ _ E. apply Nat2Z.inj, E.
  - apply seq_NoDup.
Qed.

Lemma step_numbers_S first n :
  step_numbers first (S n) = Z.of_nat first :: step_numbers (S first) n.
Proof. reflexivity. Qed.

Lemma in_ring_steps a i :
  In i (ring_steps a) <-> 1 <= i <= local_size (comm_ptr a) - 1.
Proof. unfold ring_steps. rewrite in_step_numbers. lia. Qed.

Section Builder.
Context {R : Runtime}.

(** The loop, started at step [first] of the walk, emits the steps
    [first, first + 1, ...] of the closed form. *)
Lemma ring_loop_closed a iters : forall first s,
  1 <= local_size (comm_ptr a) <= max_ring_size ->
  ring_loop iters a
    (ring_left (local_size (comm_ptr a)) (rank (comm_ptr a)))
    (ring_right (local_size (comm_ptr a)) (rank (comm_ptr a)))
    (ring_send_block (local_size (comm_ptr a)) (rank (comm_ptr a))
                     (Z.of_nat first))
    (ring_recv_block (local_size (comm_ptr a)) (rank (comm_ptr a))
                     (Z.of_nat first))
    s
  = (MPI_SUCCESS, s ++ flat_map (ring_step a) (step_numbers first iters)).
Proof.
  induction iters as [|iters IH]; intros first s Hsize.
  - cbn. rewrite app_nil_r. reflexivity.
  - rewrite step_numbers_S. cbn [ring_loop flat_map].
    unfold MPIR_SCHED_BARRIER, and_then, MPIR_Sched_send, MPIR_Sched_recv,
      MPIR_Sched_barrier.
    change (c_true MPI_SUCCESS) with false. cbv iota.
    rewrite ring_prev_spec
      by (assumption || (apply Z.mod_pos_bound; lia)).
    pose proof (ring_blocks_decrement (local_size (comm_ptr a))
                  (rank (comm_ptr a)) (Z.of_nat first) ltac:(lia))
      as [_ [Hrecv Hsend]].
    replace (Z.of_nat first + 1) with (Z.of_nat (S first)) in Hrecv, Hsend
      by lia.
    match goal with |- ring_loop iters a ?l ?r ?j ?jnext ?s' = _ =>
      replace (ring_loop iters a l r j jnext s')
        with (ring_loop iters a l r
                (ring_send_block (local_size (comm_ptr a))
                   (rank (comm_ptr a)) (Z.of_nat (S first)))
                (ring_recv_block (local_size (comm_ptr a))
                   (rank (comm_ptr a)) (Z.of_nat (S first))) s')
        by (rewrite Hrecv, Hsend; reflexivity)
    end.
    rewrite IH by assumption.
    rewrite <- !app_assoc. reflexivity.
Qed.

(** The builder appends the closed-form schedule and succeeds. *)
Lemma MPIR_Iallgather_ring_sched_closed a s :
  1 <= local_size (comm_ptr a) <= max_ring_size ->
  0 <= rank (comm_ptr a) < local_size (comm_ptr a) ->
  MPIR_Iallgather_ring_sched a s = (MPI_SUCCESS, s ++ ring_schedule a).
Proof.
  intros Hsize Hrank.
  assert (Hleft : c_mod (int_wrap (int_wrap (local_size (comm_ptr a)
                                             + rank (comm_ptr a)) - 1))
                        (local_size (comm_ptr a))
                  = ring_left (local_size (comm_ptr a)) (rank (comm_ptr a))).
  { fold (ring_prev (local_size (comm_ptr a)) (rank (comm_ptr a))).
    rewrite ring_prev_spec by assumption.
    unfold ring_left.
    replace (rank (comm_ptr a) - 1 + local_size (comm_ptr a))
      with (rank (comm_ptr a) - 1 + 1 * local_size (comm_ptr a)) by lia.
    symmetry. apply Z.mod_add. lia. }
  assert (Hright : c_mod (int_wrap (rank (comm_ptr a) + 1))
                         (local_size (comm_ptr a))
                   = ring_right (local_size (comm_ptr a)) (rank (comm_ptr a))).
  { unfold max_ring_size in Hsize.
    rewrite int_wrap_fits by (apply fits_int_iff; unfold INT_MAX; lia).
    apply c_mod_nonneg; lia. }
  assert (Hj : rank (comm_ptr a)
               = ring_send_block (local_size (comm_ptr a))
                   (rank (comm_ptr a)) (Z.of_nat 1)).
  { unfold ring_send_block.
    replace (rank (comm_ptr a) - Z.of_nat 1 + 1) with (rank (comm_ptr a))
      by lia.
    symmetry. apply Z.mod_small. assumption. }
  assert (Hjnext : ring_left (local_size (comm_ptr a)) (rank (comm_ptr a))
                   = ring_recv_block (local_size (comm_ptr a))
                       (rank (comm_ptr a)) (Z.of_nat 1)).
  { unfold ring_left, ring_recv_block.
    replace (rank (comm_ptr a) - 1 + local_size (comm_ptr a))
      with (rank (comm_ptr a) - Z.of_nat 1 + 1 * local_size (comm_ptr a))
      by lia.
    apply Z.mod_add. lia. }
  assert (Hloop : forall s',
             ring_loop (Z.to_nat (local_size (comm_ptr a) - 1)) a
               (c_mod (int_wrap (int_wrap (local_size (comm_ptr a)
                                           + rank (comm_ptr a)) - 1))
                      (local_size (comm_ptr a)))
               (c_mod (int_wrap (rank (comm_ptr a) + 1))
                      (local_size (comm_ptr a)))
               (rank (comm_ptr a))
               (c_mod (int_wrap (int_wrap (local_size (comm_ptr a)
                                           + rank (comm_ptr a)) - 1))
                      (local_size (comm_ptr a)))
               s'
             = (MPI_SUCCESS,
                s' ++ flat_map (ring_step a) (ring_steps a))).
  { intros s'. rewrite Hleft, Hright.
    transitivity
      (ring_loop (Z.to_nat (local_size (comm_ptr a) - 1)) a
         (ring_left (local_size (comm_ptr a)) (rank (comm_ptr a)))
         (ring_right (local_size (comm_ptr a)) (rank (comm_ptr a)))
         (ring_send_block (local_size (comm_ptr a)) (rank (comm_ptr a))
            (Z.of_nat 1))
         (ring_recv_block (local_size (comm_ptr a)) (rank (comm_ptr a))
            (Z.of_nat 1))
         s').
    - rewrite <- Hj, <- Hjnext. reflexivity.
    - apply ring_loop_closed. assumption. }
  unfold MPIR_Iallgather_ring_sched, ring_schedule, ring_prologue.
  destruct (sendbuf a =? MPI_IN_PLACE); cbn [negb].
  - apply Hloop.
  - unfold MPIR_SCHED_BARRIER, and_then, MPIR_Sched_copy,
      MPIR_Sched_barrier.
    change (c_true MPI_SUCCESS) with false. cbv iota.
    rewrite Hloop. rewrite <- !app_assoc. reflexivity.
Qed.

End Builder.

End RingFacts.
Import RingFacts.

(** C2.  For a group of at least two processes (and at most 2^30, so
    that the rank arithmetic stays within [int]) the builder succeeds
    and appends, after the optional local copy, exactly [size - 1]
    steps, numbered 1 to [size - 1].  Step [i] is a send of block
    [(rank - i + 1) mod size] to [(rank + 1) mod size], a receive of
    block [(rank - i) mod size] from [(rank - 1 + size) mod size], and a
    barrier.  Both block numbers go down by one modulo [size] from a
    step to the next, and the blocks received over all steps are,
    without repetition, the blocks other than [rank]. *)
Theorem C2_ring_steps {R : Runtime} (a : Args) (s : MPIR_Sched_t) :
  let size := local_size (comm_ptr a) in
  let rank := rank (comm_ptr a) in
  2 <= size <= max_ring_size ->
  0 <= rank < size ->
  MPIR_Iallgather_ring_sched a s
  = (MPI_SUCCESS,
     s ++ ring_prologue a ++ flat_map (ring_step a) (ring_steps a))
  /\ (Z.of_nat (List.length (ring_steps a)) = size - 1
      /\ forall i, In i (ring_steps a) <-> 1 <= i <= size - 1)
  /\ (forall i,
        ring_step a i
        = [Sched_send (block_addr a ((rank - i + 1) mod size))
             (recvcount a) (recvtype a) ((rank + 1) mod size) (comm_ptr a);
           Sched_recv (block_addr a ((rank - i) mod size))
             (recvcount a) (recvtype a) ((rank - 1 + size) mod size)
             (comm_ptr a);
           Sched_barrier])
  /\ (forall i,
        ring_send_block size rank (i + 1)
        = (ring_send_block size rank i - 1) mod size
        /\ ring_recv_block size rank (i + 1)
           = (ring_recv_block size rank i - 1) mod size)
  /\ NoDup (map (ring_recv_block size rank) (ring_steps a))
  /\ (forall b, In b (map (ring_recv_block size rank) (ring_steps a))
                <-> 0 <= b < size /\ b <> rank).
Proof.
  intros size rank Hsize Hrank.
  split; [apply MPIR_Iallgather_ring_sched_closed; fold size; lia || assumption|].
  split.
  { split; [|apply in_ring_steps].
    unfold ring_steps, step_numbers. rewrite length_map, length_seq.
    fold size. lia. }
  split; [intros i; reflexivity|].
  split.
  { intros i.
    destruct (ring_blocks_decrement size rank i ltac:(lia)) as [H1 [H2 _]].
    split; assumption. }
  split.
  - apply NoDup_map_NoDup_ForallPairs; [|apply NoDup_step_numbers].
    intros i i' Hi Hi' E. apply in_ring_steps in Hi, Hi'.
    apply (ring_recv_block_inj size rank i i' Hrank Hi Hi' E).
  - intros b. rewrite in_map_iff. split.
    + intros [i [<- Hi]]. apply in_ring_steps in Hi.
      apply ring_recv_block_other; assumption.
    + intros [Hb Hne].
      destruct (ring_recv_block_onto size rank b Hrank Hb Hne) as [i [Hi E]].
      exists i. split; [exact E | apply in_ring_steps, Hi].
Qed.

(** C2 for rank 2 of 5, not in place: the schedule the builder returns,
    written out. *)
Lemma C2_ring_steps_witness :
  let a := Sample.args 100 2 (Sample.intra 2 5) in
  let c := Sample.intra 2 5 in
  let t := Sample.MPI_INT in
  MPIR_Iallgather_ring_sched (R := Sample.quiet) a []
  = (MPI_SUCCESS,
     [Sched_copy 100 2 t 4112 2 t; Sched_barrier;
      Sched_send 4112 2 t 3 c; Sched_recv 4104 2 t 1 c; Sched_barrier;
      Sched_send 4104 2 t 3 c; Sched_recv 4096 2 t 1 c; Sched_barrier;
      Sched_send 4096 2 t 3 c; Sched_recv 4128 2 t 1 c; Sched_barrier;
      Sched_send 4128 2 t 3 c; Sched_recv 4120 2 t 1 c; Sched_barrier]).
Proof.
  intros a c t.
  exact (proj1 (C2_ring_steps (R := Sample.quiet) a []
                  ltac:(vm_compute; split; discriminate)
                  ltac:(vm_compute; split; [discriminate | reflexivity]))).
Defined.

Module LayoutFacts.

Lemma fits_aint_iff x : fits_aint x <-> - AINT_MAX - 1 <= x <= AINT_MAX.
Proof.
  unfold fits_aint, fits, aint_bits, AINT_MAX.
  change (2 ^ (64 - 1)) with 9223372036854775808. lia.
Qed.

(** When the receive buffer is a real array of [size] blocks, neither
    product of the address computation wraps. *)
Lemma block_addr_exact a j :
  0 <= j < local_size (comm_ptr a) ->
  0 < recvcount a ->
  0 < MPIR_Datatype_get_extent (recvtype a) ->
  local_size (comm_ptr a) * recvcount a <= INT_MAX ->
  local_size (comm_ptr a) * recvcount a
    * MPIR_Datatype_get_extent (recvtype a) <= AINT_MAX ->
  block_addr a j
  = recvbuf a + j * recvcount a * MPIR_Datatype_get_extent (recvtype a).
Proof.
  intros Hj Hc He Hint Haint. unfold block_addr.
  assert (H1 : 0 <= j * recvcount a <= local_size (comm_ptr a) * recvcount a)
    by nia.
  assert (H2 : 0 <= j * recvcount a * MPIR_Datatype_get_extent (recvtype a)
               <= local_size (comm_ptr a) * recvcount a
                  * MPIR_Datatype_get_extent (recvtype a)) by nia.
  rewrite int_wrap_fits by (apply fits_int_iff; unfold INT_MAX in *; lia).
  rewrite aint_wrap_fits by (apply fits_aint_iff; unfold AINT_MAX in *; lia).
  reflexivity.
Qed.

(** Then distinct blocks start at distinct addresses. *)
Lemma block_addr_inj a j j' :
  0 <= j < local_size (comm_ptr a) ->
  0 <= j' < local_size (comm_ptr a) ->
  0 < recvcount a ->
  0 < MPIR_Datatype_get_extent (recvtype a) ->
  local_size (comm_ptr a) * recvcount a <= INT_MAX ->
  local_size (comm_ptr a) * recvcount a
    * MPIR_Datatype_get_extent (recvtype a) <= AINT_MAX ->
  block_addr a j = block_addr a j' -> j = j'.
Proof.
  intros Hj Hj' Hc He Hint Haint.
  rewrite (block_addr_exact a j), (block_addr_exact a j') by assumption.
  intros E.
  assert (E' : (j - j') * (recvcount a
                           * MPIR_Datatype_get_extent (recvtype a)) = 0)
    by lia.
  apply Z.mul_eq_0 in E'. destruct E' as [E'|E']; [lia | nia].
Qed.

(** The phases of a run of ring steps: one phase per step, holding its
    send and its receive. *)
Lemma phases_ring_steps a l : forall rest,
  phases (flat_map (ring_step a) l ++ rest)
  = map (fun i => [ring_send a i; ring_recv a i]) l ++ phases rest.
Proof.
  induction l as [|i l IH]; intros rest; [reflexivity|].
  cbn [flat_map map]. unfold ring_step at 1.
  rewrite <- app_assoc. cbn [app].
  unfold ring_send at 1, ring_recv at 1. cbn [phases].
  rewrite IH. reflexivity.
Qed.

End LayoutFacts.
Import LayoutFacts.

(** C4.  The claim fails on the code where the [int] product
    [jnext*recvcount] wraps.  On five processes with [recvcount = 2^30]
    elements of four bytes (a receive array of 20 GiB, which [MPI_Aint]
    represents), rank 0 builds an in-place schedule whose first
    receive, meant for block 4, goes to the address of block 0, the
    caller's own: [4 * 2^30] is [0] in [int].  The offset is computed
    as [jnext*recvcount*recvtype_extent] with the first product in
    [int], although the source itself takes
    [comm_size * recvcount * recvtype_extent] for an offset it adds to
    the buffer. *)
Lemma C4_int_product_wraps_onto_own_block :
  let a := Sample.args MPI_IN_PLACE 1073741824 (Sample.intra 0 5) in
  let sched := snd (MPIR_Iallgather_ring_sched (R := Sample.quiet) a []) in
  sendbuf a = MPI_IN_PLACE
  /\ local_size (comm_ptr a) * recvcount a
     * MPIR_Datatype_get_extent (recvtype a) <= AINT_MAX
  /\ block_addr a 4 = block_addr a (rank (comm_ptr a))
  /\ nth 1 sched Sched_barrier
     = Sched_recv (block_addr a (rank (comm_ptr a))) (recvcount a)
         (recvtype a) 4 (comm_ptr a)
  /\ In (nth 1 sched Sched_barrier) sched
  /\ writes_to (block_addr a (rank (comm_ptr a))) (nth 1 sched Sched_barrier)
     = true.
Proof.
  intros a sched.
  split; [reflexivity|]. split; [vm_compute; discriminate|].
  split; [reflexivity|]. split; [reflexivity|].
  split; [right; left; reflexivity | reflexivity].
Qed.

(** X19.  Let the receive buffer be an array of [size] blocks of
    [recvcount] elements of positive extent, with [size * recvcount]
    within [int] and the byte size within [MPI_Aint].  In place, no
    step of the schedule the builder emits writes at the address of
    block [rank].  Not in place, the emitted schedule starts with the
    local copy of the send buffer into block [rank], followed by a
    barrier, and no step after that writes at the address of block
    [rank].  In both cases every other block is the target of a receive
    of the schedule. *)
Theorem X19_ring_own_block_untouched_in_range {R : Runtime} (a : Args)
    (s : MPIR_Sched_t) :
  let size := local_size (comm_ptr a) in
  let rank := rank (comm_ptr a) in
  1 <= size <= max_ring_size ->
  0 <= rank < size ->
  0 < recvcount a ->
  0 < MPIR_Datatype_get_extent (recvtype a) ->
  size * recvcount a <= INT_MAX ->
  size * recvcount a * MPIR_Datatype_get_extent (recvtype a) <= AINT_MAX ->
  exists emitted steps,
    MPIR_Iallgather_ring_sched a s = (MPI_SUCCESS, s ++ emitted)
    /\ (sendbuf a = MPI_IN_PLACE -> emitted = steps)
    /\ (sendbuf a <> MPI_IN_PLACE ->
        emitted
        = Sched_copy (sendbuf a) (sendcount a) (sendtype a)
            (block_addr a rank) (recvcount a) (recvtype a)
          :: Sched_barrier :: steps)
    /\ (forall st, In st steps -> writes_to (block_addr a rank) st = false)
    /\ (forall j, 0 <= j < size -> j <> rank ->
        exists src,
          In (Sched_recv (block_addr a j) (recvcount a) (recvtype a) src
                (comm_ptr a)) steps).
Proof.
  intros size rank Hsize Hrank Hc He Hint Haint.
  exists (ring_schedule a), (flat_map (ring_step a) (ring_steps a)).
  split; [apply MPIR_Iallgather_ring_sched_closed; assumption|].
  unfold ring_schedule, ring_prologue.
  split; [intros Hin; apply Z.eqb_eq in Hin; rewrite Hin; reflexivity|].
  split; [intros Hout; apply Z.eqb_neq in Hout; rewrite Hout; reflexivity|].
  split.
  - intros st Hst. apply in_flat_map in Hst. destruct Hst as [i [Hi Hst]].
    apply in_ring_steps in Hi.
    destruct Hst as [<-|[<-|[<-|[]]]]; [reflexivity | | reflexivity].
    unfold ring_recv, writes_to. apply Z.eqb_neq. intros E.
    destruct (ring_recv_block_other size rank i Hrank Hi) as [Hb Hne].
    apply Hne. apply (block_addr_inj a); assumption.
  - intros j Hj Hne.
    destruct (ring_recv_block_onto size rank j Hrank Hj Hne) as [i [Hi E]].
    exists (ring_left size rank). apply in_flat_map. exists i.
    split; [apply in_ring_steps, Hi|].
    right; left. unfold ring_recv. fold size rank. rewrite E. reflexivity.
Qed.

(** X19 for rank 0 of 3, in place: the schedule holds two receives,
    into the blocks at 4112 and 4104, and nothing writes at 4096. *)
Lemma X19_ring_own_block_untouched_in_range_witness :
  let a := Sample.args MPI_IN_PLACE 2 (Sample.intra 0 3) in
  exists emitted steps,
    MPIR_Iallgather_ring_sched (R := Sample.quiet) a [] = (MPI_SUCCESS, emitted)
    /\ (sendbuf a = MPI_IN_PLACE -> emitted = steps)
    /\ (sendbuf a <> MPI_IN_PLACE ->
        emitted
        = Sched_copy (sendbuf a) (sendcount a) (sendtype a)
            (block_addr a 0) (recvcount a) (recvtype a)
          :: Sched_barrier :: steps)
    /\ (forall st, In st steps -> writes_to (block_addr a 0) st = false)
    /\ (forall j, 0 <= j < 3 -> j <> 0 ->
        exists src,
          In (Sched_recv (block_addr a j) (recvcount a) (recvtype a) src
                (comm_ptr a)) steps).
Proof.
  intros a.
  exact (X19_ring_own_block_untouched_in_range (R := Sample.quiet) a []
           ltac:(vm_compute; split; discriminate)
           ltac:(vm_compute; split; [discriminate | reflexivity])
           ltac:(reflexivity) ltac:(reflexivity)
           ltac:(vm_compute; discriminate) ltac:(vm_compute; discriminate)).
Defined.

(** C5.  In the schedule the builder makes from an empty one, every
    phase (the steps between two barriers) is the send and the receive
    of one step of the ring: the two are not separated by a barrier, and
    a barrier closes the phase before the next step's send.  A local
    copy, when there is one, is a phase of its own before the first
    step.  Nothing is left after the last barrier. *)
Theorem C5_ring_barriers {R : Runtime} (a : Args) :
  let size := local_size (comm_ptr a) in
  let rank := rank (comm_ptr a) in
  1 <= size <= max_ring_size ->
  0 <= rank < size ->
  fst (MPIR_Iallgather_ring_sched a []) = MPI_SUCCESS
  /\ phases (snd (MPIR_Iallgather_ring_sched a []))
     = (if sendbuf a =? MPI_IN_PLACE then [] else [[ring_local_copy a]])
       ++ map (fun i => [ring_send a i; ring_recv a i]) (ring_steps a)
       ++ [[]].
Proof.
  intros size rank Hsize Hrank.
  rewrite (MPIR_Iallgather_ring_sched_closed a [] Hsize Hrank).
  split; [reflexivity|]. cbn [snd app].
  unfold ring_schedule, ring_prologue.
  rewrite <- (app_nil_r (flat_map (ring_step a) (ring_steps a))).
  destruct (sendbuf a =? MPI_IN_PLACE).
  - cbn [app]. apply phases_ring_steps.
  - cbn [app]. unfold ring_local_copy at 1. cbn [phases].
    rewrite phases_ring_steps. reflexivity.
Qed.

(** C5 for rank 1 of 3, not in place: three phases, the copy and the
    two steps. *)
Lemma C5_ring_barriers_witness :
  let a := Sample.args 100 2 (Sample.intra 1 3) in
  let c := Sample.intra 1 3 in
  let t := Sample.MPI_INT in
  phases (snd (MPIR_Iallgather_ring_sched (R := Sample.quiet) a []))
  = [[Sched_copy 100 2 t 4104 2 t];
     [Sched_send 4104 2 t 2 c; Sched_recv 4096 2 t 0 c];
     [Sched_send 4096 2 t 2 c; Sched_recv 4112 2 t 0 c];
     []].
Proof.
  intros a c t.
  exact (proj2 (C5_ring_barriers (R := Sample.quiet) a
                  ltac:(vm_compute; split; discriminate)
                  ltac:(vm_compute; split; [discriminate | reflexivity]))).
Defined.

(** * Further properties of the code *)

(** ** allgather.c: selection and dispatch *)

Section MoreDispatchFacts.
Context {R : Runtime}.

Lemma log_grew_not_same (l : list Event) (x : Event) : l ++ [x] <> l.
Proof.
  intros E. apply (f_equal (@List.length Event)) in E.
  rewrite length_app in E. cbn in E. lia.
Qed.

Lemma invokes_same_routine r r' a a' w w' :
  invokes r a w w' -> invokes r' a' w w' -> r = r'.
Proof.
  intros [e He] [e' He']. rewrite He in He'.
  apply app_inv_head in He'. congruence.
Qed.

Lemma zero_size_call_iff a :
  zero_size_call a = true
  <-> (sendcount a = 0 /\ sendbuf a <> MPI_IN_PLACE) \/ recvcount a = 0.
Proof.
  split; [|apply zero_size_call_true].
  unfold zero_size_call. intros Hz. apply orb_prop in Hz.
  destruct Hz as [Hz|Hz].
  - apply andb_prop in Hz. destruct Hz as [Hs Hb]. left. split.
    + apply Z.eqb_eq, Hs.
    + apply Z.eqb_neq. apply negb_true_iff, Hb.
  - right. apply Z.eqb_eq, Hz.
Qed.

(** If [MPIR_Allgather_intra] called [r], the call was not of size zero
    and [r] is the routine of the policy. *)
Lemma MPIR_Allgather_intra_invoked cvars a w r :
  invokes r a w (snd (MPIR_Allgather_intra cvars a w)) ->
  zero_size_call a = false
  /\ r = selection_policy (MPIR_CVAR_ALLGATHER_SHORT_MSG_SIZE cvars)
           (MPIR_CVAR_ALLGATHER_LONG_MSG_SIZE cvars)
           (tot_bytes a) (comm_size_is_pof2 (local_size (comm_ptr a))).
Proof.
  intros Hinv. destruct (zero_size_call a) eqn:Hz.
  - exfalso. unfold MPIR_Allgather_intra in Hinv. rewrite Hz in Hinv.
    destruct Hinv as [ret Hret]. cbn [snd] in Hret.
    symmetry in Hret. exact (log_grew_not_same _ _ Hret).
  - split; [reflexivity|].
    exact (invokes_same_routine _ _ _ _ _ _ Hinv
             (MPIR_Allgather_intra_invokes cvars a w Hz)).
Qed.

End MoreDispatchFacts.

(** X1.  The automatic selection calls a routine only under that
    routine's condition: recursive doubling only on a group whose size
    is a power of two, with [tot_bytes] below the long-message
    threshold; Bruck only with [tot_bytes] below the short-message
    threshold; ring only with [tot_bytes] at or above the short-message
    threshold.  It never calls the inter-group routine or the device
    routine. *)
Theorem X1_selected_routine_conditions {R : Runtime} (cvars : Cvars)
    (a : Args) (w : World) (r : Routine) :
  1 <= local_size (comm_ptr a) <= INT_MAX ->
  invokes r a w (snd (MPIR_Allgather_intra cvars a w)) ->
  match r with
  | MPIR_Allgather_recursive_doubling =>
      is_pow2 (local_size (comm_ptr a))
      /\ tot_bytes a < MPIR_CVAR_ALLGATHER_LONG_MSG_SIZE cvars
  | MPIR_Allgather_brucks =>
      tot_bytes a < MPIR_CVAR_ALLGATHER_SHORT_MSG_SIZE cvars
  | MPIR_Allgather_ring =>
      MPIR_CVAR_ALLGATHER_SHORT_MSG_SIZE cvars <= tot_bytes a
  | MPIR_Allgather_generic_inter => False
  | MPID_Allgather => False
  end.
Proof.
  intros Hsize Hinv.
  destruct (MPIR_Allgather_intra_invoked cvars a w r Hinv) as [_ ->].
  unfold selection_policy.
  destruct (Z.ltb_spec (tot_bytes a) (MPIR_CVAR_ALLGATHER_LONG_MSG_SIZE cvars));
    destruct (comm_size_is_pof2 (local_size (comm_ptr a))) eqn:Hp;
    cbn [andb];
    try (split; [apply (comm_size_is_pof2_spec _ Hsize), Hp | assumption]);
    destruct (Z.ltb_spec (tot_bytes a)
                (MPIR_CVAR_ALLGATHER_SHORT_MSG_SIZE cvars));
    assumption.
Qed.

(** X1 at a concrete call on four processes. *)
Lemma X1_selected_routine_conditions_witness :
  let a := Sample.args 100 1000 (Sample.intra 2 4) in
  is_pow2 (local_size (comm_ptr a))
  /\ tot_bytes a < MPIR_CVAR_ALLGATHER_LONG_MSG_SIZE (default_cvars true).
Proof.
  intros a.
  exact (X1_selected_routine_conditions (R := Sample.quiet)
           (default_cvars true) a (Sample.world0 Sample.quiet 0%nat)
           MPIR_Allgather_recursive_doubling
           ltac:(vm_compute; split; discriminate)
           (ex_intro _ MPI_SUCCESS eq_refl)).
Defined.

(** X2.  [MPIR_Allgather_intra] returns without calling a routine
    exactly when the send count is zero on a call that is not in place,
    or the receive count is zero.  So an in-place call with a nonzero
    receive count reaches an algorithm whatever its send count. *)
Theorem X2_intra_calls_nothing_iff_zero_size {R : Runtime} (cvars : Cvars)
    (a : Args) (w : World) :
  calls (snd (MPIR_Allgather_intra cvars a w)) = calls w
  <-> (sendcount a = 0 /\ sendbuf a <> MPI_IN_PLACE) \/ recvcount a = 0.
Proof.
  rewrite <- zero_size_call_iff. split.
  - intros Hlog. destruct (zero_size_call a) eqn:Hz; [reflexivity|exfalso].
    destruct (MPIR_Allgather_intra_invokes cvars a w Hz) as [ret Hret].
    rewrite Hlog in Hret. symmetry in Hret.
    exact (log_grew_not_same _ _ Hret).
  - intros Hz. unfold MPIR_Allgather_intra. rewrite Hz. reflexivity.
Qed.

(** X3.  With the group size fixed, the automatic selection is monotone
    in [tot_bytes]: once the ring is chosen it stays chosen for every
    larger volume, and where recursive doubling is chosen it is chosen
    for every smaller volume too. *)
Theorem X3_selection_monotone {R : Runtime} (cvars : Cvars)
    (a1 a2 : Args) (w1 w2 : World) :
  zero_size_call a1 = false ->
  zero_size_call a2 = false ->
  local_size (comm_ptr a1) = local_size (comm_ptr a2) ->
  tot_bytes a1 <= tot_bytes a2 ->
  (invokes MPIR_Allgather_ring a1 w1 (snd (MPIR_Allgather_intra cvars a1 w1)) ->
   invokes MPIR_Allgather_ring a2 w2 (snd (MPIR_Allgather_intra cvars a2 w2)))
  /\ (invokes MPIR_Allgather_recursive_doubling a2 w2
        (snd (MPIR_Allgather_intra cvars a2 w2)) ->
      invokes MPIR_Allgather_recursive_doubling a1 w1
        (snd (MPIR_Allgather_intra cvars a1 w1))).
Proof.
  intros Hz1 Hz2 Hsize Hle.
  pose proof (MPIR_Allgather_intra_invokes cvars a1 w1 Hz1) as H1.
  pose proof (MPIR_Allgather_intra_invokes cvars a2 w2 Hz2) as H2.
  split; intros Hinv.
  - apply MPIR_Allgather_intra_invoked in Hinv. destruct Hinv as [_ E].
    replace MPIR_Allgather_ring with
      (selection_policy (MPIR_CVAR_ALLGATHER_SHORT_MSG_SIZE cvars)
         (MPIR_CVAR_ALLGATHER_LONG_MSG_SIZE cvars) (tot_bytes a2)
         (comm_size_is_pof2 (local_size (comm_ptr a2)))); [exact H2|].
    rewrite <- Hsize. revert E. unfold selection_policy.
    destruct (comm_size_is_pof2 (local_size (comm_ptr a1)));
      destruct (Z.ltb_spec (tot_bytes a1)
                  (MPIR_CVAR_ALLGATHER_LONG_MSG_SIZE cvars));
      destruct (Z.ltb_spec (tot_bytes a1)
                  (MPIR_CVAR_ALLGATHER_SHORT_MSG_SIZE cvars));
      cbn [andb]; intros E; try discriminate E;
      destruct (Z.ltb_spec (tot_bytes a2)
                  (MPIR_CVAR_ALLGATHER_LONG_MSG_SIZE cvars));
      destruct (Z.ltb_spec (tot_bytes a2)
                  (MPIR_CVAR_ALLGATHER_SHORT_MSG_SIZE cvars));
      cbn [andb]; try reflexivity; lia.
  - apply MPIR_Allgather_intra_invoked in Hinv. destruct Hinv as [_ E].
    replace MPIR_Allgather_recursive_doubling with
      (selection_policy (MPIR_CVAR_ALLGATHER_SHORT_MSG_SIZE cvars)
         (MPIR_CVAR_ALLGATHER_LONG_MSG_SIZE cvars) (tot_bytes a1)
         (comm_size_is_pof2 (local_size (comm_ptr a1)))); [exact H1|].
    rewrite Hsize. revert E. unfold selection_policy.
    destruct (comm_size_is_pof2 (local_size (comm_ptr a2)));
      destruct (Z.ltb_spec (tot_bytes a2)
                  (MPIR_CVAR_ALLGATHER_LONG_MSG_SIZE cvars));
      destruct (Z.ltb_spec (tot_bytes a2)
                  (MPIR_CVAR_ALLGATHER_SHORT_MSG_SIZE cvars));
      cbn [andb]; intros E; try discriminate E;
      destruct (Z.ltb_spec (tot_bytes a1)
                  (MPIR_CVAR_ALLGATHER_LONG_MSG_SIZE cvars));
      cbn [andb]; try reflexivity; lia.
Qed.

(** X3 at two calls on five processes, 30000 and 40000 ints each. *)
Lemma X3_selection_monotone_witness :
  let a1 := Sample.args 100 30000 (Sample.intra 0 5) in
  let a2 := Sample.args 100 40000 (Sample.intra 0 5) in
  let w := Sample.world0 Sample.quiet 0%nat in
  invokes (R := Sample.quiet) MPIR_Allgather_ring a2 w
    (snd (MPIR_Allgather_intra (default_cvars true) a2 w)).
Proof.
  intros a1 a2 w.
  exact (proj1 (X3_selection_monotone (R := Sample.quiet) (default_cvars true)
                  a1 a2 w w eq_refl eq_refl eq_refl
                  ltac:(vm_compute; discriminate))
               (ex_intro _ MPI_SUCCESS eq_refl)).
Defined.

Section ForcedPathFacts.
Context {R : Runtime}.

(** The forced branches of [MPIR_Allgather], result and world. *)
Lemma MPIR_Allgather_forced_result cvars a w r :
  forced_routine cvars (comm_kind (comm_ptr a)) = Some r ->
  MPIR_Allgather cvars a w
  = (propagated "MPIR_Allgather" (fst (call r a w)), snd (call r a w)).
Proof.
  intros Hr. unfold forced_routine in Hr.
  unfold MPIR_Allgather, MPIR_Allgather_inter, propagated.
  destruct (comm_kind (comm_ptr a));
    [destruct (MPIR_Allgather_alg_intra_choice cvars)
    |destruct (MPIR_Allgather_alg_inter_choice cvars)];
    inversion Hr; subst;
    destruct (call _ a w) as [e w1]; cbn [fst snd];
    rewrite c_true_eqb; destruct (e =? MPI_SUCCESS) eqn:He; cbn [negb];
    try reflexivity; apply Z.eqb_eq in He; rewrite He; reflexivity.
Qed.

End ForcedPathFacts.

(** X4.  When the configuration forces an algorithm, or on an
    inter-group, [MPIR_Allgather] calls the configured routine whatever
    the message size and group size, and returns that routine's code,
    handed up by [MPIR_ERR_POP] when it is an error.  The error flag is
    not looked at on this path: a routine that returns success leaves
    [MPIR_Allgather] returning success even with the flag raised. *)
Theorem X4_forced_path_returns_routine_code {R : Runtime} (cvars : Cvars)
    (a : Args) (w : World) (r : Routine) :
  forced_routine cvars (comm_kind (comm_ptr a)) = Some r ->
  MPIR_Allgather cvars a w
  = (propagated "MPIR_Allgather" (fst (call r a w)), snd (call r a w))
  /\ (fst (call r a w) = MPI_SUCCESS ->
      fst (MPIR_Allgather cvars a w) = MPI_SUCCESS).
Proof.
  intros Hr.
  pose proof (MPIR_Allgather_forced_result cvars a w r Hr) as E.
  split; [exact E|].
  intros Hok. rewrite E. cbn [fst]. rewrite Hok. reflexivity.
Qed.

(** X4 at a concrete call: ring forced on a group of five, the routine
    returning success and raising the flag to 15; the result is success
    and the flag stays raised. *)
Lemma X4_forced_path_returns_routine_code_witness :
  let R := Sample.runtime 0 15 0 0 in
  let a := Sample.args 100 8 (Sample.intra 2 5) in
  let w := Sample.world0 R 0%nat in
  fst (MPIR_Allgather Sample.forced_ring a w) = MPI_SUCCESS
  /\ errflag (snd (MPIR_Allgather Sample.forced_ring a w)) = 15.
Proof.
  intros R a w. split; [|reflexivity].
  exact (proj2 (X4_forced_path_returns_routine_code (R := R)
                  Sample.forced_ring a w MPIR_Allgather_ring eq_refl)
               eq_refl).
Defined.

(** X5.  On an inter-group no configuration setting changes what
    [MPIR_Allgather] does: under any two configurations it produces the
    same result, by calling the generic inter-group routine. *)
Theorem X5_inter_group_ignores_configuration {R : Runtime}
    (cvars1 cvars2 : Cvars) (a : Args) (w : World) :
  comm_kind (comm_ptr a) = MPIR_COMM_KIND__INTERCOMM ->
  MPIR_Allgather cvars1 a w = MPIR_Allgather cvars2 a w
  /\ invokes MPIR_Allgather_generic_inter a w
       (snd (MPIR_Allgather cvars1 a w)).
Proof.
  intros Hkind.
  assert (H1 : forall cvars,
             forced_routine cvars (comm_kind (comm_ptr a))
             = Some MPIR_Allgather_generic_inter)
    by (intros cvars; rewrite Hkind; reflexivity).
  pose proof (MPIR_Allgather_forced_result cvars1 a w _ (H1 cvars1)) as E1.
  pose proof (MPIR_Allgather_forced_result cvars2 a w _ (H1 cvars2)) as E2.
  split; [rewrite E1, E2; reflexivity|].
  rewrite E1. apply call_invokes.
Qed.

(** X5 on an inter-group, under the defaults and under a configuration
    that names an intra-group algorithm and the generic inter-group
    one. *)
Lemma X5_inter_group_ignores_configuration_witness :
  let a := Sample.args 100 8 (SampleMore.inter 1 3) in
  let w := Sample.world0 Sample.quiet 0%nat in
  MPIR_Allgather (R := Sample.quiet) (default_cvars true) a w
  = MPIR_Allgather
      (SampleMore.forced MPIR_ALLGATHER_ALG_INTRA_BRUCKS
         MPIR_ALLGATHER_ALG_INTER_GENERIC) a w.
Proof.
  intros a w.
  exact (proj1 (X5_inter_group_ignores_configuration (R := Sample.quiet)
                  (default_cvars true)
                  (SampleMore.forced MPIR_ALLGATHER_ALG_INTRA_BRUCKS
                     MPIR_ALLGATHER_ALG_INTER_GENERIC) a w eq_refl)).
Defined.

Section PublicCallFacts.
Context {R : Runtime}.

(** [MPIR_Allgather] either leaves the world as it is, or leaves the
    world one call of a routine leaves. *)
Lemma MPIR_Allgather_effect cvars a w :
  snd (MPIR_Allgather cvars a w) = w
  \/ exists r, snd (MPIR_Allgather cvars a w) = snd (call r a w).
Proof.
  destruct (forced_routine cvars (comm_kind (comm_ptr a))) as [r|] eqn:E.
  - right. exists r. rewrite (MPIR_Allgather_forced_result cvars a w r E).
    reflexivity.
  - rewrite (MPIR_Allgather_auto cvars a w E). cbn [snd].
    destruct (zero_size_call a) eqn:Hz.
    + left. unfold MPIR_Allgather_intra. rewrite Hz. reflexivity.
    + right. rewrite (MPIR_Allgather_intra_selected cvars a w Hz).
      eexists. reflexivity.
Qed.

Lemma call_log_last r a w r' a' ret :
  calls (snd (call r a w)) = calls w ++ [Call r' a' ret] ->
  r' = r /\ ret = fst (call r a w).
Proof.
  rewrite call_log. intros E. apply app_inv_head in E.
  inversion E. split; reflexivity.
Qed.

End PublicCallFacts.

(** X6.  One call of [MPI_Allgather] calls at most one routine of the
    layers below, and calls it on the caller's own argument list.  When
    no routine is called the memory is what it was; that is the case,
    in particular, when argument validation fails.  The call then
    returns what its [fn_fail] block makes of the validation code, the
    error handler being given a NULL communicator pointer when it is
    the handle test that failed (the handle is not converted yet) and
    the converted pointer otherwise. *)
Theorem X6_public_call_one_routine_at_most {R : Runtime} (cvars : Cvars)
    (a : Args) (w : World) :
  ((calls (snd (MPI_Allgather cvars a w)) = calls w
    /\ mem (snd (MPI_Allgather cvars a w)) = mem w)
   \/ exists r ret,
        calls (snd (MPI_Allgather cvars a w)) = calls w ++ [Call r a ret])
  /\ (MPIR_ERRTEST a <> MPI_SUCCESS ->
      calls (snd (MPI_Allgather cvars a w)) = calls w
      /\ mem (snd (MPI_Allgather cvars a w)) = mem w
      /\ fst (MPI_Allgather cvars a w)
         = MPI_Allgather_fn_fail_at
             (if c_true (MPIR_ERRTEST_COMM a) then None
              else Some (comm_ptr a))
             (MPIR_ERRTEST a)).
Proof.
  unfold MPI_Allgather, MPIR_ERRTEST.
  set (w0 := {| mem := mem w; errflag := MPIR_ERR_NONE; calls := calls w |}).
  destruct (c_true (MPIR_ERRTEST_COMM a)) eqn:Hc.
  { split; [left; split; reflexivity|]. intros _.
    split; [reflexivity|]. split; reflexivity. }
  destruct (c_true (MPIR_ERRTEST_ARGS a)) eqn:Ha.
  { split; [left; split; reflexivity|]. intros _.
    split; [reflexivity|]. split; reflexivity. }
  split.
  - assert (Hw : forall p : Z * World,
               snd (let '(mpi_errno, w1) := p in
                    if c_true mpi_errno
                    then (MPI_Allgather_fn_fail a mpi_errno, w1)
                    else (mpi_errno, w1)) = snd p)
      by (intros [e w1]; destruct (c_true e); reflexivity).
    rewrite Hw.
    destruct (MPIR_CVAR_ALLGATHER_DEVICE_COLLECTIVE cvars
              && MPIR_CVAR_DEVICE_COLLECTIVES cvars).
    + right. exists MPID_Allgather, (fst (call MPID_Allgather a w0)).
      apply (call_log MPID_Allgather a w0).
    + destruct (MPIR_Allgather_effect cvars a w0) as [E|[r E]]; rewrite E.
      * left. split; reflexivity.
      * right. exists r, (fst (call r a w0)). apply (call_log r a w0).
  - intros Hne. exfalso. apply Hne.
    rewrite c_true_eqb in Ha. apply negb_false_iff in Ha.
    apply Z.eqb_eq, Ha.
Qed.

(** X6 at a call whose handle test fails with code 2: nothing is
    called, and the error handler, given no communicator, returns
    102. *)
Lemma X6_public_call_one_routine_at_most_witness :
  let a := Sample.args 100 8 (Sample.intra 2 5) in
  let w := Sample.world0 SampleMore.rejecting 4%nat in
  calls (snd (MPI_Allgather (default_cvars true) a w)) = []
  /\ mem (snd (MPI_Allgather (default_cvars true) a w)) = 4%nat
  /\ fst (MPI_Allgather (default_cvars true) a w) = 102.
Proof.
  intros a w.
  exact (proj2 (X6_public_call_one_routine_at_most (R := SampleMore.rejecting)
                  (default_cvars true) a w)
               ltac:(discriminate)).
Defined.

(** X7.  [MPIR_Allgather] does not turn a failure into success.
    Provided the error macros build error codes from errors, a return of
    [MPI_SUCCESS] means that the routine it called, if any, returned
    [MPI_SUCCESS], and, on the automatic path of a call not of size
    zero, that the error flag is clear at exit. *)
Theorem X7_dispatch_keeps_errors {R : Runtime} (cvars : Cvars) (a : Args)
    (w : World) :
  (forall fcname e, e <> MPI_SUCCESS -> MPIR_ERR_POP fcname e <> MPI_SUCCESS) ->
  (forall fcname class msg,
      class <> MPI_SUCCESS -> MPIR_ERR_SET fcname class msg <> MPI_SUCCESS) ->
  fst (MPIR_Allgather cvars a w) = MPI_SUCCESS ->
  (forall r ret,
      calls (snd (MPIR_Allgather cvars a w)) = calls w ++ [Call r a ret] ->
      ret = MPI_SUCCESS)
  /\ (forced_routine cvars (comm_kind (comm_ptr a)) = None ->
      zero_size_call a = false ->
      errflag (snd (MPIR_Allgather cvars a w)) = MPIR_ERR_NONE).
Proof.
  intros Hpop Hset Hok.
  assert (Hprop : forall fcname e,
             propagated fcname e = MPI_SUCCESS -> e = MPI_SUCCESS).
  { intros fcname e. unfold propagated.
    destruct (e =? MPI_SUCCESS) eqn:He; [intros _; apply Z.eqb_eq, He|].
    intros Hc. apply Z.eqb_neq in He. destruct (Hpop fcname e He Hc). }
  destruct (forced_routine cvars (comm_kind (comm_ptr a))) as [r0|] eqn:E.
  - rewrite (MPIR_Allgather_forced_result cvars a w r0 E) in *.
    cbn [fst snd] in *. apply Hprop in Hok.
    split; [|discriminate].
    intros r ret Hlog. apply call_log_last in Hlog.
    destruct Hlog as [_ ->]. exact Hok.
  - rewrite (MPIR_Allgather_auto cvars a w E) in *. cbn [fst snd] in *.
    assert (Hintra : fst (MPIR_Allgather_intra cvars a w) = MPI_SUCCESS).
    { apply (Hprop "MPIR_Allgather"%string). unfold propagated.
      rewrite c_true_eqb in Hok.
      destruct (fst (MPIR_Allgather_intra cvars a w) =? MPI_SUCCESS) eqn:He;
        [reflexivity | exact Hok]. }
    destruct (zero_size_call a) eqn:Hz.
    + split; [|discriminate].
      intros r ret Hlog. exfalso.
      unfold MPIR_Allgather_intra in Hlog. rewrite Hz in Hlog.
      cbn [snd] in Hlog. symmetry in Hlog.
      exact (log_grew_not_same _ _ Hlog).
    + rewrite (MPIR_Allgather_intra_selected cvars a w Hz) in *.
      cbn [fst snd] in *.
      set (r0 := selection_policy _ _ _ _) in *.
      destruct (errflag (snd (call r0 a w)) =? MPIR_ERR_NONE) eqn:Hf;
        cbn [negb] in Hintra.
      * apply Z.eqb_eq in Hf.
        assert (Hret : fst (call r0 a w) = MPI_SUCCESS).
        { apply (Hprop "MPIR_Allgather_intra"%string). unfold propagated.
          rewrite c_true_eqb in Hintra.
          destruct (fst (call r0 a w) =? MPI_SUCCESS) eqn:He;
            [reflexivity | exact Hintra]. }
        split; [|intros _ _; exact Hf].
        intros r ret Hlog. apply call_log_last in Hlog.
        destruct Hlog as [_ ->]. exact Hret.
      * exfalso. apply Z.eqb_neq in Hf.
        exact (Hset _ _ _ Hf Hintra).
Qed.

(** X7 at a concrete call that succeeds on the automatic path. *)
Lemma X7_dispatch_keeps_errors_witness :
  let a := Sample.args 100 8 (Sample.intra 2 5) in
  let w := Sample.world0 Sample.quiet 0%nat in
  errflag (snd (MPIR_Allgather (R := Sample.quiet) (default_cvars true) a w))
  = MPIR_ERR_NONE.
Proof.
  intros a w.
  exact (proj2 (X7_dispatch_keeps_errors (R := Sample.quiet)
                  (default_cvars true) a w
                  (fun _ e He => He) (fun _ class _ Hc => Hc) eq_refl)
               eq_refl eq_refl).
Defined.

(** ** nhb_allgather_nb.c: the wait *)

Section MoreNeighborFacts.
Context {R : Runtime}.

Lemma wait_log req w :
  calls (snd (call_MPIR_Wait_impl req w))
  = calls w ++ [Call_MPIR_Wait_impl req (fst (call_MPIR_Wait_impl req w))].
Proof.
  unfold call_MPIR_Wait_impl.
  destruct (MPIR_Wait_impl req (mem w)) as [e m]. reflexivity.
Qed.

Lemma wait_errflag req w :
  errflag (snd (call_MPIR_Wait_impl req w)) = errflag w.
Proof.
  unfold call_MPIR_Wait_impl.
  destruct (MPIR_Wait_impl req (mem w)) as [e m]. reflexivity.
Qed.

Lemma start_errflag a w :
  errflag (snd (call_MPID_Ineighbor_allgather a w)) = errflag w.
Proof.
  unfold call_MPID_Ineighbor_allgather.
  destruct (MPID_Ineighbor_allgather a (mem w)) as [[e req] m]. reflexivity.
Qed.

(** The blocking call after a successful start. *)
Lemma MPIR_Neighbor_allgather_nb_started a w :
  fst (fst (call_MPID_Ineighbor_allgather a w)) = MPI_SUCCESS ->
  MPIR_Neighbor_allgather_nb a w
  = (propagated "MPIR_Neighbor_allgather_nb"
       (fst (call_MPIR_Wait_impl
               (snd (fst (call_MPID_Ineighbor_allgather a w)))
               (snd (call_MPID_Ineighbor_allgather a w)))),
     snd (call_MPIR_Wait_impl
            (snd (fst (call_MPID_Ineighbor_allgather a w)))
            (snd (call_MPID_Ineighbor_allgather a w)))).
Proof.
  intros Hok. unfold MPIR_Neighbor_allgather_nb, propagated.
  destruct (call_MPID_Ineighbor_allgather a w) as [[e req] w1].
  cbn [fst snd] in *. subst e. change (c_true MPI_SUCCESS) with false.
  cbv iota. destruct (call_MPIR_Wait_impl req w1) as [e2 w2]. cbn [fst snd].
  rewrite c_true_eqb.
  destruct (e2 =? MPI_SUCCESS) eqn:He; cbn [negb]; [|reflexivity].
  apply Z.eqb_eq in He. rewrite He. reflexivity.
Qed.

(** The blocking call after a failed start. *)
Lemma MPIR_Neighbor_allgather_nb_not_started a w :
  fst (fst (call_MPID_Ineighbor_allgather a w)) <> MPI_SUCCESS ->
  MPIR_Neighbor_allgather_nb a w
  = (MPIR_ERR_POP "MPIR_Neighbor_allgather_nb"
       (fst (fst (call_MPID_Ineighbor_allgather a w))),
     snd (call_MPID_Ineighbor_allgather a w)).
Proof.
  intros Hne. unfold MPIR_Neighbor_allgather_nb.
  destruct (call_MPID_Ineighbor_allgather a w) as [[e req] w1].
  cbn [fst snd] in *. apply Z.eqb_neq in Hne.
  rewrite c_true_eqb, Hne. reflexivity.
Qed.

End MoreNeighborFacts.

(** X8.  After a successful start the blocking neighbor all-gather
    waits once, on the very request the start returned, and returns the
    code of that wait (handed up by [MPIR_ERR_POP] when it is an
    error).  Its call log grows by the start and that wait, in this
    order, and the error flag is left alone. *)
Theorem X8_neighbor_waits_on_started_request {R : Runtime} (a : Args)
    (w : World) :
  let start := call_MPID_Ineighbor_allgather a w in
  let req := snd (fst start) in
  let wait := call_MPIR_Wait_impl req (snd start) in
  fst (fst start) = MPI_SUCCESS ->
  fst (MPIR_Neighbor_allgather_nb a w)
  = propagated "MPIR_Neighbor_allgather_nb" (fst wait)
  /\ calls (snd (MPIR_Neighbor_allgather_nb a w))
     = calls w ++ [Call_MPID_Ineighbor_allgather a MPI_SUCCESS req;
                   Call_MPIR_Wait_impl req (fst wait)]
  /\ errflag (snd (MPIR_Neighbor_allgather_nb a w)) = errflag w.
Proof.
  intros start req wait Hok.
  rewrite (MPIR_Neighbor_allgather_nb_started a w Hok). cbn [fst snd].
  fold start req wait. split; [reflexivity|]. split.
  - unfold wait. rewrite wait_log. unfold start at 1. rewrite start_log.
    fold start req. rewrite Hok. rewrite <- app_assoc. reflexivity.
  - unfold wait. rewrite wait_errflag. apply start_errflag.
Qed.

(** X8 at a concrete call whose wait returns the error 5. *)
Lemma X8_neighbor_waits_on_started_request_witness :
  let R := Sample.runtime 0 0 0 5 in
  let a := Sample.args 100 8 (Sample.intra 2 5) in
  let w := Sample.world0 R 0%nat in
  fst (MPIR_Neighbor_allgather_nb a w) = 5
  /\ calls (snd (MPIR_Neighbor_allgather_nb a w))
     = [Call_MPID_Ineighbor_allgather a MPI_SUCCESS 7;
        Call_MPIR_Wait_impl 7 5]
  /\ errflag (snd (MPIR_Neighbor_allgather_nb a w)) = MPIR_ERR_NONE.
Proof.
  intros R a w.
  exact (X8_neighbor_waits_on_started_request (R := R) a w eq_refl).
Defined.

(** X9.  Provided [MPIR_ERR_POP] hands an error up as an error, the
    blocking neighbor all-gather returns [MPI_SUCCESS] exactly when the
    start and the wait were both called and both returned
    [MPI_SUCCESS]. *)
Theorem X9_neighbor_success_iff_both_succeed {R : Runtime} (a : Args)
    (w : World) :
  (forall e, e <> MPI_SUCCESS ->
             MPIR_ERR_POP "MPIR_Neighbor_allgather_nb" e <> MPI_SUCCESS) ->
  fst (MPIR_Neighbor_allgather_nb a w) = MPI_SUCCESS
  <-> exists req,
        calls (snd (MPIR_Neighbor_allgather_nb a w))
        = calls w ++ [Call_MPID_Ineighbor_allgather a MPI_SUCCESS req;
                      Call_MPIR_Wait_impl req MPI_SUCCESS].
Proof.
  intros Hpop.
  destruct (Z.eq_dec (fst (fst (call_MPID_Ineighbor_allgather a w)))
                     MPI_SUCCESS) as [Hok|Hne].
  - pose proof (MPIR_Neighbor_allgather_nb_started a w Hok) as E.
    rewrite E. cbn [fst snd].
    rewrite wait_log, start_log, Hok, <- app_assoc. cbn [app].
    set (req := snd (fst (call_MPID_Ineighbor_allgather a w))).
    set (e2 := fst (call_MPIR_Wait_impl req
                      (snd (call_MPID_Ineighbor_allgather a w)))).
    split.
    + intros Hres. exists req.
      assert (He2 : e2 = MPI_SUCCESS).
      { unfold propagated in Hres.
        destruct (e2 =? MPI_SUCCESS) eqn:He; [apply Z.eqb_eq, He|].
        apply Z.eqb_neq in He. destruct (Hpop e2 He Hres). }
      rewrite He2. reflexivity.
    + intros [req' Hlog]. apply app_inv_head in Hlog.
      assert (He2 : e2 = MPI_SUCCESS) by congruence.
      rewrite He2. reflexivity.
  - rewrite (MPIR_Neighbor_allgather_nb_not_started a w Hne). cbn [fst snd].
    rewrite start_log. split.
    + intros Hres. destruct (Hpop _ Hne Hres).
    + intros [req' Hlog]. apply app_inv_head in Hlog. discriminate Hlog.
Qed.

(** X9 at a concrete call where both calls succeed. *)
Lemma X9_neighbor_success_iff_both_succeed_witness :
  let a := Sample.args 100 8 (Sample.intra 2 5) in
  let w := Sample.world0 Sample.quiet 0%nat in
  fst (MPIR_Neighbor_allgather_nb (R := Sample.quiet) a w) = MPI_SUCCESS.
Proof.
  intros a w.
  exact (proj2 (X9_neighbor_success_iff_both_succeed (R := Sample.quiet) a w
                  (fun e He => He))
               (ex_intro _ 7 eq_refl)).
Defined.

(** ** win_complete.c *)

Module RmaFacts.
Import Rma.

Section Cases.
Context {W : WinRuntime}.

Lemma fn_fail_world win_ptr e w :
  MPI_Win_complete_fn_fail win_ptr e w
  = (MPIR_Err_return_win win_ptr func
       (MPIR_Err_create_code e func "**mpi_win_complete"),
     {| wmem := wmem w;
        wcalls := wcalls w
                  ++ [Call_MPIR_Err_return_win win_ptr
                        (MPIR_Err_create_code e func "**mpi_win_complete")
                        (MPIR_Err_return_win win_ptr func
                           (MPIR_Err_create_code e func
                              "**mpi_win_complete"))] |}).
Proof. reflexivity. Qed.

(** The three ways a call can go. *)
Lemma MPI_Win_complete_handle_rejected win w :
  MPIR_ERRTEST_WIN win <> MPI_SUCCESS ->
  MPI_Win_complete win w
  = MPI_Win_complete_fn_fail None (MPIR_ERRTEST_WIN win) w.
Proof.
  intros Hne. unfold MPI_Win_complete. unfold c_true.
  apply Z.eqb_neq in Hne. change MPI_SUCCESS with 0 in Hne.
  rewrite Hne. reflexivity.
Qed.

Lemma MPI_Win_complete_pointer_rejected win w :
  MPIR_ERRTEST_WIN win = MPI_SUCCESS ->
  MPIR_Win_valid_ptr (MPIR_Win_get_ptr win) <> MPI_SUCCESS ->
  MPI_Win_complete win w
  = MPI_Win_complete_fn_fail (MPIR_Win_get_ptr win)
      (MPIR_Win_valid_ptr (MPIR_Win_get_ptr win)) w.
Proof.
  intros Hok Hne. unfold MPI_Win_complete. rewrite Hok.
  change (c_true MPI_SUCCESS) with false. cbv iota. unfold c_true.
  apply Z.eqb_neq in Hne. change MPI_SUCCESS with 0 in Hne.
  rewrite Hne. reflexivity.
Qed.

Lemma MPI_Win_complete_accepted win w :
  MPIR_ERRTEST_WIN win = MPI_SUCCESS ->
  MPIR_Win_valid_ptr (MPIR_Win_get_ptr win) = MPI_SUCCESS ->
  MPI_Win_complete win w
  = (let dev := call_MPID_Win_complete (MPIR_Win_get_ptr win) w in
     if fst dev =? MPI_SUCCESS then (fst dev, snd dev)
     else MPI_Win_complete_fn_fail (MPIR_Win_get_ptr win) (fst dev) (snd dev)).
Proof.
  intros Hok Hptr. unfold MPI_Win_complete. rewrite Hok.
  change (c_true MPI_SUCCESS) with false. cbv iota. rewrite Hptr.
  change (c_true MPI_SUCCESS) with false. cbv iota zeta.
  destruct (call_MPID_Win_complete (MPIR_Win_get_ptr win) w) as [e w1].
  cbn [fst snd]. destruct (e =? MPI_SUCCESS); reflexivity.
Qed.

Lemma device_world win_ptr w :
  snd (call_MPID_Win_complete win_ptr w)
  = {| wmem := snd (MPID_Win_complete win_ptr (wmem w));
       wcalls := wcalls w
                 ++ [Call_MPID_Win_complete win_ptr
                       (fst (MPID_Win_complete win_ptr (wmem w)))] |}
  /\ fst (call_MPID_Win_complete win_ptr w)
     = fst (MPID_Win_complete win_ptr (wmem w)).
Proof.
  unfold call_MPID_Win_complete.
  destruct (MPID_Win_complete win_ptr (wmem w)) as [e m]. split; reflexivity.
Qed.

End Cases.

End RmaFacts.

(** X10.  When a validation test of [MPI_Win_complete] fails, the
    device routine is not called and the window memory is untouched;
    the only call made is the window error handler, once, and the call
    returns what the handler returns.  When it is the handle test that
    fails, the handler gets a NULL window pointer, the handle never
    having been converted. *)
Theorem X10_win_complete_validation_gate {W : Rma.WinRuntime}
    (win : Rma.MPI_Win) (w : Rma.WinWorld) :
  Rma.MPIR_ERRTEST_WIN win <> MPI_SUCCESS
  \/ Rma.MPIR_Win_valid_ptr (Rma.MPIR_Win_get_ptr win) <> MPI_SUCCESS ->
  exists win_ptr code,
    Rma.wmem (snd (Rma.MPI_Win_complete win w)) = Rma.wmem w
    /\ Rma.wcalls (snd (Rma.MPI_Win_complete win w))
       = Rma.wcalls w
         ++ [Rma.Call_MPIR_Err_return_win win_ptr code
               (fst (Rma.MPI_Win_complete win w))]
    /\ fst (Rma.MPI_Win_complete win w)
       = Rma.MPIR_Err_return_win win_ptr Rma.func code
    /\ (Rma.MPIR_ERRTEST_WIN win <> MPI_SUCCESS -> win_ptr = None)
    /\ (Rma.MPIR_ERRTEST_WIN win = MPI_SUCCESS ->
        win_ptr = Rma.MPIR_Win_get_ptr win).
Proof.
  intros Hfail.
  destruct (Z.eq_dec (Rma.MPIR_ERRTEST_WIN win) MPI_SUCCESS) as [Hok|Hne].
  - destruct Hfail as [Hc|Hptr]; [contradiction|].
    rewrite (RmaFacts.MPI_Win_complete_pointer_rejected win w Hok Hptr),
            RmaFacts.fn_fail_world.
    eexists; eexists. cbn [fst snd Rma.wmem Rma.wcalls].
    split; [reflexivity|]. split; [reflexivity|]. split; [reflexivity|].
    split; [intros Hc; contradiction | intros _; reflexivity].
  - rewrite (RmaFacts.MPI_Win_complete_handle_rejected win w Hne),
            RmaFacts.fn_fail_world.
    eexists; eexists. cbn [fst snd Rma.wmem Rma.wcalls].
    split; [reflexivity|]. split; [reflexivity|]. split; [reflexivity|].
    split; [intros _; reflexivity | intros Hc; contradiction].
Qed.

(** X10 on the null window handle. *)
Lemma X10_win_complete_validation_gate_witness :
  let w := @Rma.Build_WinWorld (Rma.sample 0) 3%nat [] in
  exists win_ptr code,
    Rma.wmem (snd (Rma.MPI_Win_complete (W := Rma.sample 0) 0 w)) = Rma.wmem w
    /\ Rma.wcalls (snd (Rma.MPI_Win_complete (W := Rma.sample 0) 0 w))
       = Rma.wcalls w
         ++ [Rma.Call_MPIR_Err_return_win win_ptr code
               (fst (Rma.MPI_Win_complete (W := Rma.sample 0) 0 w))]
    /\ win_ptr = None.
Proof.
  intros w.
  assert (Hrej : Rma.MPIR_ERRTEST_WIN (WinRuntime := Rma.sample 0) 0
                 <> MPI_SUCCESS) by discriminate.
  destruct (X10_win_complete_validation_gate (W := Rma.sample 0) 0 w
              (or_introl Hrej)) as [p [c [H1 [H2 [_ [H4 _]]]]]].
  exists p, c. split; [exact H1|]. split; [exact H2 | exact (H4 Hrej)].
Defined.

(** X11.  When both validation tests pass, [MPI_Win_complete] calls the
    device routine once, first, on the pointer the handle converts to.
    The window error handler is then called exactly when the device
    routine returned an error, with the rebuilt code of that error, and
    its result is returned; when the device routine returned
    [MPI_SUCCESS] nothing else is called and [MPI_SUCCESS] is
    returned. *)
Theorem X11_win_complete_device_then_handler {W : Rma.WinRuntime}
    (win : Rma.MPI_Win) (w : Rma.WinWorld) :
  Rma.MPIR_ERRTEST_WIN win = MPI_SUCCESS ->
  Rma.MPIR_Win_valid_ptr (Rma.MPIR_Win_get_ptr win) = MPI_SUCCESS ->
  let win_ptr := Rma.MPIR_Win_get_ptr win in
  let dev := Rma.MPID_Win_complete win_ptr (Rma.wmem w) in
  Rma.wmem (snd (Rma.MPI_Win_complete win w)) = snd dev
  /\ (fst dev = MPI_SUCCESS ->
      fst (Rma.MPI_Win_complete win w) = MPI_SUCCESS
      /\ Rma.wcalls (snd (Rma.MPI_Win_complete win w))
         = Rma.wcalls w ++ [Rma.Call_MPID_Win_complete win_ptr MPI_SUCCESS])
  /\ (fst dev <> MPI_SUCCESS ->
      let code :=
        Rma.MPIR_Err_create_code (fst dev) Rma.func "**mpi_win_complete" in
      fst (Rma.MPI_Win_complete win w)
      = Rma.MPIR_Err_return_win win_ptr Rma.func code
      /\ Rma.wcalls (snd (Rma.MPI_Win_complete win w))
         = Rma.wcalls w
           ++ [Rma.Call_MPID_Win_complete win_ptr (fst dev);
               Rma.Call_MPIR_Err_return_win win_ptr code
                 (fst (Rma.MPI_Win_complete win w))]).
Proof.
  intros Hok Hptr win_ptr dev.
  rewrite (RmaFacts.MPI_Win_complete_accepted win w Hok Hptr). cbv zeta.
  destruct (RmaFacts.device_world win_ptr w) as [Hw He].
  fold win_ptr. rewrite He. fold dev.
  destruct (fst dev =? MPI_SUCCESS) eqn:Hd.
  - apply Z.eqb_eq in Hd. cbn [fst snd]. rewrite Hw. fold dev.
    cbn [Rma.wmem Rma.wcalls].
    split; [reflexivity|]. split.
    + intros _. rewrite Hd. split; reflexivity.
    + intros Hc. contradiction.
  - apply Z.eqb_neq in Hd. rewrite RmaFacts.fn_fail_world, Hw. fold dev.
    cbn [fst snd Rma.wmem Rma.wcalls].
    split; [reflexivity|]. split; [intros Hc; contradiction|].
    intros _. split; [reflexivity|].
    rewrite <- app_assoc. reflexivity.
Qed.

(** X11 on a valid handle, the device routine returning the error 9. *)
Lemma X11_win_complete_device_then_handler_witness :
  let w := @Rma.Build_WinWorld (Rma.sample 9) 3%nat [] in
  fst (Rma.MPI_Win_complete (W := Rma.sample 9) 12 w) = 9
  /\ Rma.wcalls (snd (Rma.MPI_Win_complete (W := Rma.sample 9) 12 w))
     = [Rma.Call_MPID_Win_complete (Some 12) 9;
        Rma.Call_MPIR_Err_return_win (Some 12) 9 9].
Proof.
  intros w.
  exact (proj2 (proj2 (X11_win_complete_device_then_handler
                         (W := Rma.sample 9) 12 w eq_refl eq_refl))
               ltac:(discriminate)).
Defined.

(** ** iallgather_ring.c: shape of the schedule *)

Module RingShapeFacts.

Section Shape.
Context {R : Runtime}.

(** The loop only appends, and what it appends does not depend on the
    schedule it is given. *)
Lemma ring_loop_appends a iters : forall left right j jnext s,
  ring_loop iters a left right j jnext s
  = (MPI_SUCCESS, s ++ snd (ring_loop iters a left right j jnext [])).
Proof.
  induction iters as [|iters IH]; intros left right j jnext s.
  - cbn. rewrite app_nil_r. reflexivity.
  - cbn [ring_loop].
    unfold MPIR_SCHED_BARRIER, and_then, MPIR_Sched_send, MPIR_Sched_recv,
      MPIR_Sched_barrier.
    change (c_true MPI_SUCCESS) with false. cbv iota.
    rewrite (IH _ _ _ _ (((s ++ _) ++ _) ++ _)).
    rewrite (IH _ _ _ _ ((([] ++ _) ++ _) ++ _)). cbn [snd app].
    rewrite <- !app_assoc. reflexivity.
Qed.

Lemma MPIR_Iallgather_ring_sched_appends a s :
  MPIR_Iallgather_ring_sched a s
  = (MPI_SUCCESS, s ++ snd (MPIR_Iallgather_ring_sched a [])).
Proof.
  unfold MPIR_Iallgather_ring_sched.
  destruct (negb (sendbuf a =? MPI_IN_PLACE)).
  - unfold MPIR_SCHED_BARRIER, and_then, MPIR_Sched_copy, MPIR_Sched_barrier.
    change (c_true MPI_SUCCESS) with false. cbv iota.
    rewrite (ring_loop_appends _ _ _ _ _ _ ((s ++ _) ++ _)).
    rewrite (ring_loop_appends _ _ _ _ _ _ (([] ++ _) ++ _)). cbn [snd app].
    rewrite <- !app_assoc. reflexivity.
  - apply ring_loop_appends.
Qed.

(** What the loop appends: [iters] sends, [iters] receives and [iters]
    barriers, three steps a round. *)
Lemma ring_loop_counts a iters : forall left right j jnext,
  let l := snd (ring_loop iters a left right j jnext []) in
  List.length (filter is_send l) = iters
  /\ List.length (filter is_recv l) = iters
  /\ List.length (filter is_barrier l) = iters
  /\ List.length l = (3 * iters)%nat.
Proof.
  induction iters as [|iters IH]; intros left right j jnext l.
  - repeat split.
  - subst l. cbn [ring_loop].
    unfold MPIR_SCHED_BARRIER, and_then, MPIR_Sched_send, MPIR_Sched_recv,
      MPIR_Sched_barrier.
    change (c_true MPI_SUCCESS) with false. cbv iota.
    rewrite ring_loop_appends. cbn [snd app filter is_send is_recv is_barrier].
    specialize (IH left right jnext (ring_prev (local_size (comm_ptr a)) jnext)).
    destruct IH as [H1 [H2 [H3 H4]]].
    cbn [List.length]. rewrite H1, H2, H3, H4. repeat split; lia.
Qed.

End Shape.

Lemma ring_walk_cons size rank :
  1 <= size -> 0 <= rank < size ->
  ring_walk size rank
  = rank :: map (ring_recv_block size rank)
              (step_numbers 1 (Z.to_nat (size - 1))).
Proof.
  intros Hsize Hrank. unfold ring_walk.
  replace (Z.to_nat size) with (S (Z.to_nat (size - 1))) by lia.
  rewrite step_numbers_S. cbn [map]. f_equal.
  replace (rank - Z.of_nat 0) with rank by lia.
  apply Z.mod_small. assumption.
Qed.

(** The walk visits every block of the group once, its own first. *)
Lemma ring_walk_spec size rank :
  1 <= size -> 0 <= rank < size ->
  Z.of_nat (List.length (ring_walk size rank)) = size
  /\ hd 0 (ring_walk size rank) = rank
  /\ NoDup (ring_walk size rank)
  /\ (forall b, In b (ring_walk size rank) <-> 0 <= b < size).
Proof.
  intros Hsize Hrank.
  assert (Hin : forall b,
             In b (map (ring_recv_block size rank)
                     (step_numbers 1 (Z.to_nat (size - 1))))
             <-> 0 <= b < size /\ b <> rank).
  { intros b. rewrite in_map_iff. split.
    - intros [i [<- Hi]]. apply in_step_numbers in Hi.
      apply ring_recv_block_other; lia.
    - intros [Hb Hne].
      destruct (ring_recv_block_onto size rank b Hrank Hb Hne) as [i [Hi E]].
      exists i. split; [exact E | apply in_step_numbers; lia]. }
  split.
  { unfold ring_walk, step_numbers. rewrite !length_map, length_seq. lia. }
  rewrite (ring_walk_cons size rank Hsize Hrank).
  split; [reflexivity|]. split.
  - constructor.
    + intros Hc. apply Hin in Hc. destruct Hc as [_ Hc]. apply Hc. reflexivity.
    + apply NoDup_map_NoDup_ForallPairs; [|apply NoDup_step_numbers].
      intros i i' Hi Hi' E. apply in_step_numbers in Hi, Hi'.
      apply (ring_recv_block_inj size rank i i'); (assumption || lia).
  - intros b. cbn [In]. rewrite Hin. split.
    + intros [<-|[Hb _]]; assumption.
    + intros Hb. destruct (Z.eq_dec rank b); [left | right; split]; auto.
Qed.

(** The steps of the closed form are a pipeline over the walk. *)
Lemma ring_steps_chain a n : forall k,
  flat_map (ring_step a) (step_numbers (S k) n)
  = chain_steps a
      (ring_left (local_size (comm_ptr a)) (rank (comm_ptr a)))
      (ring_right (local_size (comm_ptr a)) (rank (comm_ptr a)))
      (map (block_addr a)
         (map (fun i => (rank (comm_ptr a) - i) mod local_size (comm_ptr a))
            (step_numbers k (S n)))).
Proof.
  induction n as [|n IH]; intros k; [reflexivity|].
  rewrite (step_numbers_S (S k) n), (step_numbers_S k (S n)).
  cbn [flat_map map]. rewrite IH.
  rewrite (step_numbers_S (S k) n). cbn [map chain_steps].
  unfold ring_step, ring_send, ring_recv, ring_send_block, ring_recv_block.
  cbn [app].
  replace (rank (comm_ptr a) - Z.of_nat (S k) + 1)
    with (rank (comm_ptr a) - Z.of_nat k) by lia.
  reflexivity.
Qed.

End RingShapeFacts.

(** X12.  The ring builder only appends: the schedule it returns is the
    schedule it was given followed by the steps it would add to an empty
    one, for every argument list. *)
Theorem X12_ring_builder_appends {R : Runtime} (a : Args) (s : MPIR_Sched_t) :
  snd (MPIR_Iallgather_ring_sched a s)
  = s ++ snd (MPIR_Iallgather_ring_sched a []).
Proof.
  rewrite RingShapeFacts.MPIR_Iallgather_ring_sched_appends. reflexivity.
Qed.

(** X13.  On a group of one process the builder emits no communication
    at all: nothing in place, and otherwise only the local copy and its
    barrier. *)
Theorem X13_ring_single_process {R : Runtime} (a : Args) (s : MPIR_Sched_t) :
  local_size (comm_ptr a) = 1 ->
  MPIR_Iallgather_ring_sched a s
  = (MPI_SUCCESS,
     s ++ (if sendbuf a =? MPI_IN_PLACE then []
           else [Sched_copy (sendbuf a) (sendcount a) (sendtype a)
                   (block_addr a (rank (comm_ptr a)))
                   (recvcount a) (recvtype a);
                 Sched_barrier])).
Proof.
  intros Hone. unfold MPIR_Iallgather_ring_sched. rewrite Hone.
  change (Z.to_nat (1 - 1)) with 0%nat. cbn [ring_loop].
  destruct (sendbuf a =? MPI_IN_PLACE); cbn [negb].
  - rewrite app_nil_r. reflexivity.
  - unfold MPIR_SCHED_BARRIER, and_then, MPIR_Sched_copy, MPIR_Sched_barrier.
    change (c_true MPI_SUCCESS) with false. cbv iota.
    rewrite <- app_assoc. reflexivity.
Qed.

(** X13 for the only member of a group of one, in place. *)
Lemma X13_ring_single_process_witness :
  MPIR_Iallgather_ring_sched (R := Sample.quiet)
    (Sample.args MPI_IN_PLACE 2 (Sample.intra 0 1)) []
  = (MPI_SUCCESS, []).
Proof.
  exact (X13_ring_single_process (R := Sample.quiet)
           (Sample.args MPI_IN_PLACE 2 (Sample.intra 0 1)) [] eq_refl).
Defined.

(** X14.  For every argument list the schedule built from an empty one
    holds [max 0 (size - 1)] sends, as many receives, and that many
    barriers plus one when the call is not in place; it has three steps
    per round plus the two of the prologue. *)
Theorem X14_ring_step_counts {R : Runtime} (a : Args) :
  let n := Z.max 0 (local_size (comm_ptr a) - 1) in
  let p := if sendbuf a =? MPI_IN_PLACE then 0 else 1 in
  let sched := snd (MPIR_Iallgather_ring_sched a []) in
  count_steps is_send sched = n
  /\ count_steps is_recv sched = n
  /\ count_steps is_barrier sched = n + p
  /\ Z.of_nat (List.length sched) = 3 * n + 2 * p.
Proof.
  intros n p sched. subst sched. unfold MPIR_Iallgather_ring_sched.
  set (left := c_mod _ _). set (right := c_mod _ _).
  destruct (RingShapeFacts.ring_loop_counts a
              (Z.to_nat (local_size (comm_ptr a) - 1)) left right
              (rank (comm_ptr a)) left) as [H1 [H2 [H3 H4]]].
  unfold count_steps. subst p.
  destruct (sendbuf a =? MPI_IN_PLACE); cbn [negb].
  - rewrite H1, H2, H3, H4. subst n. repeat split; lia.
  - unfold MPIR_SCHED_BARRIER, and_then, MPIR_Sched_copy, MPIR_Sched_barrier.
    change (c_true MPI_SUCCESS) with false. cbv iota.
    rewrite RingShapeFacts.ring_loop_appends.
    cbn [snd app filter is_send is_recv is_barrier List.length].
    rewrite H1, H2, H3, H4. subst n. repeat split; lia.
Qed.

(** X15.  The communication part of the ring schedule is a pipeline
    over the blocks of the receive array, visited in the order [rank],
    [rank - 1], ... modulo [size]: the first round sends the caller's
    own block, and every later round sends the block the round before
    received.  The walk visits each of the [size] blocks exactly once. *)
Theorem X15_ring_is_a_pipeline {R : Runtime} (a : Args) (s : MPIR_Sched_t) :
  let size := local_size (comm_ptr a) in
  let rank := rank (comm_ptr a) in
  1 <= size <= max_ring_size ->
  0 <= rank < size ->
  snd (MPIR_Iallgather_ring_sched a s)
  = s ++ ring_prologue a
      ++ chain_steps a ((rank - 1 + size) mod size) ((rank + 1) mod size)
           (map (block_addr a) (ring_walk size rank))
  /\ Z.of_nat (List.length (ring_walk size rank)) = size
  /\ hd 0 (ring_walk size rank) = rank
  /\ NoDup (ring_walk size rank)
  /\ (forall b, In b (ring_walk size rank) <-> 0 <= b < size).
Proof.
  intros size rank Hsize Hrank.
  split; [|apply RingShapeFacts.ring_walk_spec; (assumption || lia)].
  rewrite (MPIR_Iallgather_ring_sched_closed a s Hsize Hrank). cbn [snd].
  unfold ring_schedule, ring_steps. fold size.
  rewrite RingShapeFacts.ring_steps_chain. fold size rank.
  unfold ring_walk, ring_left, ring_right.
  replace (S (Z.to_nat (size - 1))) with (Z.to_nat size) by lia.
  reflexivity.
Qed.

(** X15 for rank 2 of 5, in place: the walk is 2, 1, 0, 4, 3. *)
Lemma X15_ring_is_a_pipeline_witness :
  let a := Sample.args MPI_IN_PLACE 2 (Sample.intra 2 5) in
  snd (MPIR_Iallgather_ring_sched (R := Sample.quiet) a [])
  = chain_steps a 1 3 (map (block_addr a) [2; 1; 0; 4; 3]).
Proof.
  intros a.
  exact (proj1 (X15_ring_is_a_pipeline (R := Sample.quiet) a []
                  ltac:(vm_compute; split; discriminate)
                  ltac:(vm_compute; split; [discriminate | reflexivity]))).
Defined.

(** X16.  When the receive buffer is an array of [size] blocks of
    [recvcount] elements of positive extent (offsets representable),
    every address the schedule sends from, receives into or copies to
    is the start of a block inside that array: it lies at or after
    [recvbuf], and the block that starts there ends at or before
    [recvbuf + size * recvcount * extent], the largest offset of the
    source's assertion. *)
Theorem X16_ring_addresses_in_bounds {R : Runtime} (a : Args) (st : Step)
    (addr : Z) :
  let size := local_size (comm_ptr a) in
  let rank := rank (comm_ptr a) in
  let block := recvcount a * MPIR_Datatype_get_extent (recvtype a) in
  1 <= size <= max_ring_size ->
  0 <= rank < size ->
  0 < recvcount a ->
  0 < MPIR_Datatype_get_extent (recvtype a) ->
  size * recvcount a <= INT_MAX ->
  size * recvcount a * MPIR_Datatype_get_extent (recvtype a) <= AINT_MAX ->
  In st (snd (MPIR_Iallgather_ring_sched a [])) ->
  step_addr st = Some addr ->
  exists j, 0 <= j < size
            /\ addr = recvbuf a + j * block
            /\ recvbuf a <= addr
            /\ addr + block <= recvbuf a + size * block.
Proof.
  intros size rank block Hsize Hrank Hc He Hint Haint Hin Haddr.
  rewrite (MPIR_Iallgather_ring_sched_closed a [] Hsize Hrank) in Hin.
  cbn [snd app] in Hin.
  assert (Hblock : forall j, 0 <= j < size -> addr = block_addr a j ->
             exists j, 0 <= j < size
                       /\ addr = recvbuf a + j * block
                       /\ recvbuf a <= addr
                       /\ addr + block <= recvbuf a + size * block).
  { intros j Hj ->. exists j. split; [exact Hj|].
    rewrite (block_addr_exact a j) by assumption. subst block.
    split; [lia|]. split; nia. }
  unfold ring_schedule in Hin. apply in_app_or in Hin.
  destruct Hin as [Hin|Hin].
  - unfold ring_prologue in Hin.
    destruct (sendbuf a =? MPI_IN_PLACE); [destruct Hin|].
    destruct Hin as [<-|[<-|[]]]; [|discriminate Haddr].
    cbn in Haddr. injection Haddr as Haddr.
    apply (Hblock rank Hrank). symmetry. exact Haddr.
  - apply in_flat_map in Hin. destruct Hin as [i [Hi Hin]].
    apply in_ring_steps in Hi. fold size in Hi.
    destruct Hin as [<-|[<-|[<-|[]]]]; [| |discriminate Haddr].
    + cbn in Haddr. injection Haddr as Haddr.
      apply (Hblock (ring_send_block size rank i));
        [|symmetry; exact Haddr].
      unfold ring_send_block. apply Z.mod_pos_bound. lia.
    + cbn in Haddr. injection Haddr as Haddr.
      apply (Hblock (ring_recv_block size rank i));
        [|symmetry; exact Haddr].
      unfold ring_recv_block. apply Z.mod_pos_bound. lia.
Qed.

(** X16 for the last receive of rank 2 of 5: address 4120 is block 3 of
    the array at 4096 with blocks of 8 bytes. *)
Lemma X16_ring_addresses_in_bounds_witness :
  let a := Sample.args MPI_IN_PLACE 2 (Sample.intra 2 5) in
  exists j, 0 <= j < 5
            /\ 4120 = recvbuf a + j * (2 * 4)
            /\ recvbuf a <= 4120
            /\ 4120 + 2 * 4 <= recvbuf a + 5 * (2 * 4).
Proof.
  intros a.
  exact (X16_ring_addresses_in_bounds (R := Sample.quiet) a
           (Sched_recv 4120 2 Sample.MPI_INT 1 (Sample.intra 2 5)) 4120
           ltac:(vm_compute; split; discriminate)
           ltac:(vm_compute; split; [discriminate | reflexivity])
           ltac:(reflexivity) ltac:(reflexivity)
           ltac:(vm_compute; discriminate) ltac:(vm_compute; discriminate)
           ltac:(vm_compute; tauto) eq_refl).
Defined.

(** X17.  Neighbours agree.  Take two processes of one group of [size],
    one of rank [r] and its right neighbour of rank [(r + 1) mod size].
    In every round [i] the first sends to the second the block with the
    number [b] that the second receives from the first in that same
    round, and [b] is never the second's own block.  So what a round
    delivers lands under the number it left with, and no process has its
    own contribution overwritten. *)
Theorem X17_ring_neighbours_agree {R : Runtime} (a a' : Args) (i : Z) :
  let size := local_size (comm_ptr a) in
  let r := rank (comm_ptr a) in
  let r' := rank (comm_ptr a') in
  1 <= size <= max_ring_size ->
  local_size (comm_ptr a') = size ->
  0 <= r < size ->
  r' = (r + 1) mod size ->
  1 <= i <= size - 1 ->
  snd (MPIR_Iallgather_ring_sched a [])
  = ring_prologue a ++ flat_map (ring_step a) (ring_steps a)
  /\ snd (MPIR_Iallgather_ring_sched a' [])
     = ring_prologue a' ++ flat_map (ring_step a') (ring_steps a')
  /\ In i (ring_steps a) /\ In i (ring_steps a')
  /\ exists b,
       0 <= b < size /\ b <> r'
       /\ ring_send a i
          = Sched_send (block_addr a b) (recvcount a) (recvtype a) r'
              (comm_ptr a)
       /\ ring_recv a' i
          = Sched_recv (block_addr a' b) (recvcount a') (recvtype a') r
              (comm_ptr a').
Proof.
  intros size r r' Hsize Hsize' Hr Hr' Hi.
  assert (Hr'range : 0 <= r' < size)
    by (rewrite Hr'; apply Z.mod_pos_bound; lia).
  split.
  { rewrite (MPIR_Iallgather_ring_sched_closed a [] Hsize Hr). reflexivity. }
  split.
  { rewrite (MPIR_Iallgather_ring_sched_closed a' []);
      [reflexivity | rewrite Hsize'; exact Hsize
      | rewrite Hsize'; exact Hr'range]. }
  split; [apply in_ring_steps; exact Hi|].
  split; [apply in_ring_steps; rewrite Hsize'; exact Hi|].
  exists (ring_recv_block size r' i).
  destruct (ring_recv_block_other size r' i Hr'range Hi) as [Hb Hne].
  split; [exact Hb|]. split; [exact Hne|].
  assert (Hsame : ring_send_block size r i = ring_recv_block size r' i).
  { unfold ring_send_block, ring_recv_block. rewrite Hr'.
    rewrite Zminus_mod_idemp_l. f_equal. lia. }
  assert (Hleft : ring_left size r' = r).
  { unfold ring_left. rewrite Hr'.
    replace ((r + 1) mod size - 1 + size)
      with ((r + 1) mod size + (size - 1)) by lia.
    rewrite Zplus_mod_idemp_l.
    replace (r + 1 + (size - 1)) with (r + 1 * size) by lia.
    rewrite Z.mod_add by lia. apply Z.mod_small. exact Hr. }
  split.
  - unfold ring_send. fold size r. rewrite Hsame.
    unfold ring_right. rewrite <- Hr'. reflexivity.
  - unfold ring_recv. rewrite Hsize'. fold r'. rewrite Hleft. reflexivity.
Qed.

(** X17 for ranks 4 and 0 of a group of five, round 2: block 3. *)
Lemma X17_ring_neighbours_agree_witness :
  let a := Sample.args 100 2 (Sample.intra 4 5) in
  let a' := Sample.args 100 2 (Sample.intra 0 5) in
  exists b,
    0 <= b < 5 /\ b <> 0
    /\ ring_send a 2
       = Sched_send (block_addr a b) (recvcount a) (recvtype a) 0 (comm_ptr a)
    /\ ring_recv a' 2
       = Sched_recv (block_addr a' b) (recvcount a') (recvtype a') 4
           (comm_ptr a').
Proof.
  intros a a'.
  exact (proj2 (proj2 (proj2 (proj2
    (X17_ring_neighbours_agree (R := Sample.quiet) a a' 2
       ltac:(vm_compute; split; discriminate) eq_refl
       ltac:(vm_compute; split; [discriminate | reflexivity]) eq_refl
       ltac:(vm_compute; split; discriminate)))))).
Defined.

(** ** iallgather_ring.c: the schedules of a whole group, run together *)

Module GroupFacts.

Lemma walk_block_cases size r i :
  0 <= r < size -> 0 <= i <= size - 1 ->
  (r - i) mod size = if r - i <? 0 then r - i + size else r - i.
Proof.
  intros Hr Hi. destruct (Z.ltb_spec (r - i) 0).
  - replace ((r - i) mod size) with ((r - i + 1 * size) mod size)
      by (apply Z.mod_add; lia).
    rewrite Z.mod_small by lia. lia.
  - apply Z.mod_small. lia.
Qed.

Lemma walk_block_inj size r i i' :
  0 <= r < size -> 0 <= i <= size - 1 -> 0 <= i' <= size - 1 ->
  (r - i) mod size = (r - i') mod size -> i = i'.
Proof.
  intros Hr Hi Hi'.
  rewrite (walk_block_cases size r i Hr Hi),
          (walk_block_cases size r i' Hr Hi').
  destruct (Z.ltb_spec (r - i) 0), (Z.ltb_spec (r - i') 0); lia.
Qed.

Lemma walk_block_onto size r j :
  0 <= r < size -> 0 <= j < size ->
  exists i, 0 <= i <= size - 1 /\ (r - i) mod size = j.
Proof.
  intros Hr Hj.
  exists (if r - j <? 0 then r - j + size else r - j).
  destruct (Z.ltb_spec (r - j) 0).
  - split; [lia|]. rewrite walk_block_cases by lia.
    destruct (Z.ltb_spec (r - (r - j + size)) 0); lia.
  - split; [lia|]. rewrite walk_block_cases by lia.
    destruct (Z.ltb_spec (r - (r - j)) 0); lia.
Qed.

Lemma store_same m addr v : store m addr v addr = v.
Proof. unfold store. rewrite Z.eqb_refl. reflexivity. Qed.

Lemma store_other m addr v x : x <> addr -> store m addr v x = m x.
Proof. intros Hne. unfold store. apply Z.eqb_neq in Hne. rewrite Hne. reflexivity. Qed.

(** Phases without steps change no memory. *)
Lemma run_phases_idle n : forall sched g r,
  Forall (fun p => p = []) (sched r) ->
  run_phases n sched g r = g r.
Proof.
  induction n as [|n IH]; intros sched g r Hidle; [reflexivity|].
  cbn [run_phases]. rewrite IH.
  - unfold run_phase. destruct Hidle as [|p rest Hp Hrest]; cbn [hd].
    + reflexivity.
    + rewrite Hp. reflexivity.
  - destruct Hidle as [|p rest Hp Hrest]; cbn [tl]; [constructor | exact Hrest].
Qed.

Section Group.
Context {R : Runtime}.
Variable size : Z.
Variable args_of : Z -> Args.
Hypothesis Hsize : 1 <= size <= max_ring_size.
Hypothesis Hmember :
  forall r, 0 <= r < size -> group_member size (args_of r) r.

Lemma member_block_addr_inj r j j' :
  0 <= r < size -> 0 <= j < size -> 0 <= j' < size ->
  block_addr (args_of r) j = block_addr (args_of r) j' -> j = j'.
Proof.
  intros Hr Hj Hj'.
  destruct (Hmember r Hr) as [Hs [_ [Hc [He [Hint Haint]]]]].
  apply block_addr_inj; rewrite ?Hs; assumption.
Qed.

Lemma member_left r :
  0 <= r < size ->
  0 <= ring_left size r < size
  /\ ring_right size (ring_left size r) = r
  /\ forall k, ring_send_block size (ring_left size r) k
               = ring_recv_block size r k.
Proof.
  intros Hr.
  assert (Hl : 0 <= ring_left size r < size)
    by (unfold ring_left; apply Z.mod_pos_bound; lia).
  split; [exact Hl|]. split.
  - unfold ring_right, ring_left. rewrite Zplus_mod_idemp_l.
    replace (r - 1 + size + 1) with (r + 1 * size) by lia.
    rewrite Z.mod_add by lia. apply Z.mod_small. exact Hr.
  - intros k. unfold ring_send_block, ring_recv_block, ring_left.
    replace ((r - 1 + size) mod size - k + 1)
      with ((r - 1 + size) mod size + (1 - k)) by lia.
    rewrite Zplus_mod_idemp_l.
    replace (r - 1 + size + (1 - k)) with (r - k + 1 * size) by lia.
    apply Z.mod_add. lia.
Qed.

(** One round of the ring, run by the whole group. *)
Lemma run_round k phase g :
  1 <= k <= size - 1 ->
  (forall r, 0 <= r < size ->
     phase r = [ring_send (args_of r) k; ring_recv (args_of r) k]) ->
  holds_walk size args_of (k - 1) g ->
  holds_walk size args_of k (run_phase phase g).
Proof.
  intros Hk Hphase Hinv r i Hr Hi.
  destruct (Hmember r Hr) as [Hs [Hrk _]].
  destruct (member_left r Hr) as [Hl [Hright Hblock]].
  destruct (Hmember _ Hl) as [Hsl [Hrkl _]].
  unfold run_phase. rewrite (Hphase r Hr).
  unfold ring_send at 1, ring_recv at 1. cbn [run_steps].
  rewrite Hs, Hrk. rewrite (Hphase _ Hl).
  unfold ring_send at 1. cbn [send_to]. rewrite Hsl, Hrkl, Hright.
  rewrite Z.eqb_refl, Hblock.
  destruct (Z.eq_dec i k) as [->|Hne].
  - unfold ring_recv_block at 2. rewrite store_same.
    pose proof (Hinv _ (k - 1) Hl ltac:(lia)) as Hheld.
    replace ((ring_left size r - (k - 1)) mod size)
      with (ring_recv_block size r k) in Hheld.
    + exact Hheld.
    + rewrite <- Hblock. unfold ring_send_block. f_equal. lia.
  - rewrite store_other.
    + apply Hinv; [assumption | lia].
    + intros E. apply Hne. apply (walk_block_inj size r i k Hr); try lia.
      apply (member_block_addr_inj r); try assumption;
        try (apply Z.mod_pos_bound; lia).
Qed.

(** The rounds [k, k + 1, ...] up to the last, then idle phases. *)
Lemma run_rounds n : forall k m sched g,
  1 <= k -> k + Z.of_nat n = size ->
  (forall r, 0 <= r < size ->
     exists rest,
       sched r = map (fun i => [ring_send (args_of r) i;
                                ring_recv (args_of r) i])
                   (step_numbers (Z.to_nat k) n) ++ rest
       /\ Forall (fun p => p = []) rest) ->
  holds_walk size args_of (k - 1) g ->
  forall r i, 0 <= r < size -> 0 <= i <= size - 1 ->
    run_phases (n + m) sched g r (block_addr (args_of r) ((r - i) mod size))
    = Some ((r - i) mod size).
Proof.
  induction n as [|n IH]; intros k m sched g Hk Hlast Hsched Hinv r i Hr Hi.
  - destruct (Hsched r Hr) as [rest [Hs Hidle]]. cbn [app map] in Hs.
    cbn [Nat.add]. rewrite run_phases_idle by (rewrite Hs; exact Hidle).
    apply Hinv; [assumption | lia].
  - cbn [Nat.add run_phases].
    apply (IH (k + 1) m); try lia; try assumption.
    + intros q Hq. destruct (Hsched q Hq) as [rest [Hs Hidle]].
      exists rest. split; [|exact Hidle]. rewrite Hs.
      rewrite step_numbers_S. cbn [map app tl].
      replace (Z.to_nat (k + 1)) with (S (Z.to_nat k)) by lia. reflexivity.
    + replace (k + 1 - 1) with k by lia.
      apply run_round; [lia | | exact Hinv].
      intros q Hq. destruct (Hsched q Hq) as [rest [Hs _]]. rewrite Hs.
      rewrite step_numbers_S. cbn [map app hd].
      rewrite Z2Nat.id by lia. reflexivity.
Qed.

(** The phases of the schedule of a member. *)
Lemma member_phases r :
  0 <= r < size ->
  phases (snd (MPIR_Iallgather_ring_sched (args_of r) []))
  = (if sendbuf (args_of r) =? MPI_IN_PLACE then []
     else [[ring_local_copy (args_of r)]])
    ++ map (fun i => [ring_send (args_of r) i; ring_recv (args_of r) i])
         (step_numbers 1 (Z.to_nat (size - 1)))
    ++ [[]].
Proof.
  intros Hr. destruct (Hmember r Hr) as [Hs [Hrk _]].
  rewrite MPIR_Iallgather_ring_sched_closed
    by (rewrite Hs, ?Hrk; assumption).
  cbn [snd app]. unfold ring_schedule, ring_prologue, ring_steps.
  rewrite Hs.
  rewrite <- (app_nil_r (flat_map _ _)).
  destruct (sendbuf (args_of r) =? MPI_IN_PLACE); cbn [app].
  - apply phases_ring_steps.
  - unfold ring_local_copy at 1. cbn [phases].
    rewrite phases_ring_steps. reflexivity.
Qed.

End Group.

End GroupFacts.

(** X18.  The ring schedules gather, within the [int] range.  Let the
    [size] processes of a group each build their schedule with
    [MPIR_Iallgather_ring_sched], all in place or none, each starting
    with its own contribution where the call expects it (its own block
    in place, the send buffer otherwise), and let every receive buffer
    be an array of [size] blocks of [recvcount > 0] elements of positive
    extent with [size * recvcount] within [int] and the byte size
    within [MPI_Aint].  When the schedules are run together, phase by
    phase, every process ends with block [j] of its receive buffer
    holding the contribution of rank [j], for every [j]. *)
Theorem X18_ring_schedules_gather {R : Runtime} (size : Z)
    (args_of : Z -> Args) (start : Z -> Memory) :
  1 <= size <= max_ring_size ->
  (forall r, 0 <= r < size ->
     local_size (comm_ptr (args_of r)) = size
     /\ rank (comm_ptr (args_of r)) = r
     /\ 0 < recvcount (args_of r)
     /\ 0 < MPIR_Datatype_get_extent (recvtype (args_of r))
     /\ size * recvcount (args_of r) <= INT_MAX
     /\ size * recvcount (args_of r)
        * MPIR_Datatype_get_extent (recvtype (args_of r)) <= AINT_MAX) ->
  (forall r, 0 <= r < size -> sendbuf (args_of r) = MPI_IN_PLACE)
  \/ (forall r, 0 <= r < size -> sendbuf (args_of r) <> MPI_IN_PLACE) ->
  (forall r, 0 <= r < size ->
     start r (contribution_addr (args_of r)) = Some r) ->
  forall r j, 0 <= r < size -> 0 <= j < size ->
    run_phases (S (Z.to_nat size))
      (fun q => phases (snd (MPIR_Iallgather_ring_sched (args_of q) [])))
      start r (block_addr (args_of r) j)
    = Some j.
Proof.
  intros Hsize Hmember Hplace Hstart r j Hr Hj.
  destruct (GroupFacts.walk_block_onto size r j Hr Hj) as [i [Hi <-]].
  assert (Hidle : Forall (fun p : list Step => p = []) [[]])
    by (constructor; [reflexivity | constructor]).
  destruct Hplace as [Hin|Hout].
  - (* in place: the rounds start at once *)
    replace (S (Z.to_nat size)) with (Z.to_nat (size - 1) + 2)%nat by lia.
    apply (GroupFacts.run_rounds size args_of Hsize Hmember
             (Z.to_nat (size - 1)) 1 2); try lia; try assumption.
    + intros q Hq. exists [[]]. split; [|exact Hidle].
      rewrite (GroupFacts.member_phases size args_of Hsize Hmember q Hq).
      pose proof (Hin q Hq) as Hb. apply Z.eqb_eq in Hb. rewrite Hb. reflexivity.
    + intros q i' Hq Hi'. replace i' with 0 by lia.
      replace (q - 0) with q by lia. rewrite Z.mod_small by assumption.
      pose proof (Hstart q Hq) as Hs. unfold contribution_addr in Hs.
      pose proof (Hin q Hq) as Hb. apply Z.eqb_eq in Hb. rewrite Hb in Hs.
      destruct (Hmember q Hq) as [_ [Hrk _]]. rewrite Hrk in Hs. exact Hs.
  - (* not in place: first the phase of the local copies *)
    replace (S (Z.to_nat size)) with (S (Z.to_nat (size - 1) + 1))%nat by lia.
    cbn [run_phases].
    apply (GroupFacts.run_rounds size args_of Hsize Hmember
             (Z.to_nat (size - 1)) 1 1); try lia; try assumption.
    + intros q Hq. exists [[]]. split; [|exact Hidle].
      rewrite (GroupFacts.member_phases size args_of Hsize Hmember q Hq).
      pose proof (Hout q Hq) as Hb. apply Z.eqb_neq in Hb. rewrite Hb. reflexivity.
    + intros q i' Hq Hi'. replace i' with 0 by lia.
      replace (q - 0) with q by lia. rewrite Z.mod_small by assumption.
      unfold run_phase.
      rewrite (GroupFacts.member_phases size args_of Hsize Hmember q Hq).
      pose proof (Hout q Hq) as Hb. apply Z.eqb_neq in Hb. rewrite Hb.
      cbn [app hd]. unfold ring_local_copy. cbn [run_steps].
      destruct (Hmember q Hq) as [_ [Hrk _]]. rewrite Hrk.
      rewrite GroupFacts.store_same.
      pose proof (Hstart q Hq) as Hs. unfold contribution_addr in Hs.
      rewrite Hb in Hs. exact Hs.
Qed.

(** X18 on a group of three, not in place: process 2 ends with the
    contribution of rank 0 in block 0. *)
Lemma X18_ring_schedules_gather_witness :
  run_phases 4
    (fun q => phases (snd (MPIR_Iallgather_ring_sched (R := Sample.quiet)
                             (SampleMore.group3 q) [])))
    SampleMore.group3_start 2 (block_addr (SampleMore.group3 2) 0)
  = Some 0.
Proof.
  refine (X18_ring_schedules_gather (R := Sample.quiet) 3 SampleMore.group3
            SampleMore.group3_start _ _ (or_intror _) _ 2 0 _ _).
  - vm_compute. split; discriminate.
  - intros r Hr. cbn.
    repeat split; try reflexivity; vm_compute; discriminate.
  - intros r Hr. discriminate.
  - intros r Hr. reflexivity.
  - vm_compute. split; [discriminate | reflexivity].
  - vm_compute. split; [discriminate | reflexivity].
Defined.
